(** * plottr.apps.appmanager: launching, messaging and monitoring app processes

    A shallow embedding of [plottr/apps/appmanager.py].  The four classes of
    the module ([AppServer], [App], [ProcessMonitor], [AppManager]) become
    four modules with the same names; a method becomes a function from the
    object's state (and the method's arguments) to the new state, the
    outcome of the call and the list of externally visible actions it
    performed, in program order.

    Python dictionaries keep insertion order and the code iterates over them
    ([closeEvent], [ProcessMonitor.run]), so a dictionary is an association
    list in insertion order with unique keys. *)

From Stdlib Require Import ZArith List String Bool Lia Permutation.
From Stdlib Require Import DecimalString.
Import ListNotations.

Set Warnings "-register-all".
Local Open Scope Z_scope.

(** ** Python values *)

Inductive excType : Type :=
| ValueError
| KeyError
| TypeError
| AttributeError
| RuntimeError.

(** An exception object: its class and its message. *)
Record exception : Type := Exc { exc_type : excType; exc_msg : string }.

(** The picklable objects that travel over a socket. *)
Inductive pyval : Type :=
| PyNone
| PyBool (b : bool)
| PyInt (z : Z)
| PyStr (s : string)
| PyTuple (items : list pyval)
| PyDict (items : list (pyval * pyval))
| PyException (e : exception).

(** [x is None] *)
Definition is_None (x : pyval) : bool :=
  match x with PyNone => true | _ => false end.

(** [x == s] for a string literal [s] *)
Definition eq_str (x : pyval) (s : string) : bool :=
  match x with PyStr t => String.eqb t s | _ => false end.

(** [isinstance(x, Exception)] *)
Definition is_Exception (x : pyval) : bool :=
  match x with PyException _ => true | _ => false end.

(** How a call ends: it returns, it raises, or it never comes back (a
    blocking receive with no reply, a loop that does not stop). *)
Inductive outcome (A : Type) : Type :=
| Returns (a : A)
| Raises (e : exception)
| Blocks.
Arguments Returns {A} a.
Arguments Raises {A} e.
Arguments Blocks {A}.

(** ** Ids: [IdType = Union[int, str]] *)

Inductive IdType : Type :=
| IdInt (z : Z)
| IdStr (s : string).

Definition Id_eqb (a b : IdType) : bool :=
  match a, b with
  | IdInt x, IdInt y => Z.eqb x y
  | IdStr x, IdStr y => String.eqb x y
  | _, _ => false
  end.

(** [str(z)] for an integer *)
Definition str_of_Z (z : Z) : string := NilZero.string_of_int (Z.to_int z).

(** [f'{Id}'] *)
Definition str_of_Id (i : IdType) : string :=
  match i with IdInt z => str_of_Z z | IdStr s => s end.

(** ** Dictionaries keyed by ids *)

Module Dict.
Section Dict.
Context {V : Type}.

Definition t : Type := list (IdType * V).

Definition keys (d : t) : list IdType := map fst d.
Definition values (d : t) : list V := map snd d.

(** [d.get(k)] *)
Fixpoint get (k : IdType) (d : t) : option V :=
  match d with
  | [] => None
  | (k', v) :: d' => if Id_eqb k k' then Some v else get k d'
  end.

(** [k in d] *)
Definition mem (k : IdType) (d : t) : bool :=
  match get k d with Some _ => true | None => false end.

(** [d[k] = v]: an existing key keeps its place, a new key goes last. *)
Fixpoint set (k : IdType) (v : V) (d : t) : t :=
  match d with
  | [] => [(k, v)]
  | (k', v') :: d' =>
      if Id_eqb k k' then (k', v) :: d' else (k', v') :: set k v d'
  end.

(** [del d[k]]: [None] stands for the [KeyError] of a missing key. *)
Fixpoint del (k : IdType) (d : t) : option t :=
  match d with
  | [] => None
  | (k', v') :: d' =>
      if Id_eqb k k' then Some d'
      else match del k d' with
           | Some d'' => Some ((k', v') :: d'')
           | None => None
           end
  end.
End Dict.
Arguments t V : clear implicits.
End Dict.

(** ** Objects of the Qt and zmq libraries

    A [QProcess] and a zmq socket are opaque library objects; each is known
    by its identity, the number the object got when it was created. *)

Record QProcess : Type := Process { process_object : nat }.
Record Socket : Type := Sock { socket_object : nat }.

(** [QProcess.state()]: 0 is [NotRunning], 1 [Starting], 2 [Running]. *)
Definition ProcessState : Type := QProcess -> Z.

(** The warnings the module logs. *)
Inductive warning : Type :=
| IdAlreadyExists (Id : IdType)        (* f'Id {Id} already exists' *)
| IdNotPresent (Id : IdType)           (* f'{Id} not present in the processes.' *)
| ExceptionInApp (Id : IdType).        (* f'Exception occurred in app <{Id}>:' *)

(** What a method does to the world outside its own object, in order. *)
Inductive action : Type :=
| ProcessStart (p : QProcess) (port : Z) (module func : string) (args : list string)
| ProcessWaitForStarted (p : QProcess) (msecs : Z)
| SocketConnect (s : Socket) (port : Z)
| PollerRegister (s : Socket)
| EmitNewProcess (Id : IdType) (p : QProcess)
| SocketSend (s : Socket) (obj : pyval)
| SocketRecv (s : Socket) (obj : pyval)
| LogWarning (w : warning)
| PrintException (e : exception)
| ProcmonQuit
| ProcmonDeleteLater
| ThreadQuit
| ThreadWait
| ThreadDeleteLater
| ProcessClose (p : QProcess)
| SocketClose (s : Socket) (linger : Z)
| ContextDestroy (linger : Z)
| SuperCloseEvent.

(** ** class AppManager *)

Module AppManager.

(** One value of [self.processes]:
    [{'process': process, 'port': port, 'socket': socket}]. *)
Record WorkerRecord : Type := Worker {
  process : QProcess;
  port : Z;
  socket : Socket
}.

Record state : Type := Manager {
  processes : Dict.t WorkerRecord;
  initialPort : Z;
  procmon : bool;        (* [self.procmon is not None] *)
  procmonThread : bool;  (* [self.procmonThread is not None] *)
  created : nat          (* library objects created so far *)
}.

(** [__init__(initialPort)] *)
Definition init (initialPort : Z) : state :=
  Manager [] initialPort true true 0.

Definition with_processes (self : state) (d : Dict.t WorkerRecord) : state :=
  Manager d (initialPort self) (procmon self) (procmonThread self) (created self).

(** [[data['port'] for data in self.processes.values()]] *)
Definition usedPorts (self : state) : list Z :=
  map port (Dict.values (processes self)).

(** [port in usedPorts] *)
Definition port_in (p : Z) (used : list Z) : bool := existsb (Z.eqb p) used.

(** [while port in usedPorts: port += 1], run for at most [fuel] tests of
    the condition; [None] when the loop is still running after them. *)
Fixpoint findPort (fuel : nat) (used : list Z) (p : Z) : option Z :=
  match fuel with
  | O => None
  | S fuel' => if port_in p used then findPort fuel' used (p + 1) else Some p
  end.

(** The loop tests the condition at most [length usedPorts + 1] times
    (lemma [findPort_terminates]), so this much fuel runs it to its end. *)
Definition firstAvailablePort (self : state) : option Z :=
  findPort (S (List.length (usedPorts self))) (usedPorts self) (initialPort self).

Definition launchApp (self : state) (Id : IdType) (module func : string)
    (args : list string) : state * outcome bool * list action :=
  if negb (Dict.mem Id (processes self)) then
    match firstAvailablePort self with
    | None => (self, Blocks, [])
    | Some p =>
        let process := Process (created self) in
        let socket := Sock (S (created self)) in
        let data := Worker process p socket in
        (Manager (Dict.set Id data (processes self)) (initialPort self)
                 (procmon self) (procmonThread self) (S (S (created self))),
         Returns true,
         [ProcessStart process p module func args;
          ProcessWaitForStarted process 100;
          SocketConnect socket p;
          PollerRegister socket;
          EmitNewProcess Id process])
    end
  else (self, Returns false, [LogWarning (IdAlreadyExists Id)]).

(** [onProcessEneded(Id)]: [del self.processes[Id]] is not guarded. *)
Definition onProcessEneded (self : state) (Id : IdType) : state * outcome unit :=
  match Dict.del Id (processes self) with
  | Some d => (with_processes self d, Returns tt)
  | None => (self, Raises (Exc KeyError (str_of_Id Id)))
  end.

(** What the app at the other end of a socket answers to a request; [None]
    when no answer ever arrives, so that [recv_pyobj] does not return. *)
Definition Peer : Type := Socket -> pyval -> option pyval.

Definition pingApp (peer : Peer) (self : state) (Id : IdType)
    : outcome bool * list action :=
  match Dict.get Id (processes self) with
  | None => (Returns false, [LogWarning (IdNotPresent Id)])
  | Some data =>
      let socket := socket data in
      match peer socket (PyStr "ping") with
      | None => (Blocks, [SocketSend socket (PyStr "ping")])
      | Some reply =>
          (Returns (eq_str reply "pong"),
           [SocketSend socket (PyStr "ping"); SocketRecv socket reply])
      end
  end.

(** The request triple [(targetName, targetProperty, value)]. *)
Definition request (targetName targetProperty : string) (value : pyval) : pyval :=
  PyTuple [PyStr targetName; PyStr targetProperty; value].

Definition message (peer : Peer) (self : state) (Id : IdType)
    (targetName targetProperty : string) (value : pyval)
    : outcome pyval * list action :=
  match Dict.get Id (processes self) with
  | None =>
      (Raises (Exc ValueError
                 (String.append "no app with ID <"
                    (String.append (str_of_Id Id) "> running."))), [])
  | Some data =>
      let socket := socket data in
      let sent := request targetName targetProperty value in
      match peer socket sent with
      | None => (Blocks, [SocketSend socket sent])
      | Some response =>
          (Returns response,
           [SocketSend socket sent; SocketRecv socket response]
           ++ match response with
              | PyException e => [LogWarning (ExceptionInApp Id); PrintException e]
              | _ => []
              end)
      end
  end.

(** The body of [for Id, data in self.processes.items()] in [closeEvent]. *)
Definition closeAll (d : Dict.t WorkerRecord) : list action :=
  flat_map (fun '(_, data) => [ProcessClose (process data); SocketClose (socket data) 1]) d.

Definition closeEvent (self : state) : state * list action :=
  (Manager (processes self) (initialPort self) false false (created self),
   (if procmon self then [ProcmonQuit; ProcmonDeleteLater] else [])
   ++ (if procmonThread self then [ThreadQuit; ThreadWait; ThreadDeleteLater] else [])
   ++ closeAll (processes self)
   ++ [ContextDestroy 1; SuperCloseEvent]).

End AppManager.

(** ** class ProcessMonitor *)

Module ProcessMonitor.

Record state : Type := Monitor {
  processes : Dict.t QProcess;
  checking : bool
}.

Definition init : state := Monitor [] true.

(** [onNewProcess(Id, process)]; the two [connect] calls only route the
    process's output to [print]. *)
Definition onNewProcess (self : state) (Id : IdType) (process : QProcess) : state :=
  Monitor (Dict.set Id process (processes self)) (checking self).

Definition quit (self : state) : state := Monitor (processes self) false.

(** [for Id, p in processesCopy.items()]: the loop walks the copy and
    deletes from [self.processes]; it gives the dictionary it leaves, the
    ids it emitted with [processTerminated], and how it ended. *)
Fixpoint scan (st : ProcessState) (processesCopy procs : Dict.t QProcess)
    : Dict.t QProcess * list IdType * outcome unit :=
  match processesCopy with
  | [] => (procs, [], Returns tt)
  | (Id, p) :: rest =>
      if st p =? 0 then
        match Dict.del Id procs with
        | None => (procs, [], Raises (Exc KeyError (str_of_Id Id)))
        | Some procs' =>
            let '(d, emitted, o) := scan st rest procs' in (d, Id :: emitted, o)
        end
      else scan st rest procs
  end.

(** One turn of [while self.checking], the processes being in states [st]. *)
Definition cycle (st : ProcessState) (self : state)
    : state * list IdType * outcome unit :=
  if checking self then
    let '(d, emitted, o) := scan st (processes self) (processes self) in
    (Monitor d (checking self), emitted, o)
  else (self, [], Returns tt).

(** [run()], followed for one turn per element of [sts]. *)
Fixpoint run (sts : list ProcessState) (self : state)
    : state * list IdType * outcome unit :=
  match sts with
  | [] => (self, [], Returns tt)
  | st :: sts' =>
      match cycle st self with
      | (self', emitted, Returns _) =>
          let '(self'', emitted', o) := run sts' self' in
          (self'', emitted ++ emitted', o)
      | stopped => stopped
      end
  end.

End ProcessMonitor.

(** ** class AppServer *)

Module AppServer.

Record state : Type := Server {
  reply : pyval;
  running : bool
}.

(** [__init__]: [self.reply = None], [self.running = True]. *)
Definition init : state := Server PyNone true.

Definition quit (self : state) : state := Server (reply self) false.

Definition loadReply (self : state) (r : pyval) : state := Server r (running self).

(** The slots of the server are called from other threads through queued
    connections: a call is carried out when the server's thread handles
    its events, which it does inside [qtsleep]. *)
Inductive slotCall : Type :=
| CallQuit
| CallLoadReply (r : pyval).

Definition deliver (self : state) (c : slotCall) : state :=
  match c with
  | CallQuit => quit self
  | CallLoadReply r => loadReply self r
  end.

(** [qtsleep(..)], during which the calls [calls] arrive. *)
Definition qtsleep (self : state) (calls : list slotCall) : state :=
  fold_left deliver calls self.

Inductive action : Type :=
| Bind (port : string)
| SendPyobj (obj : pyval)
| EmitMessageReceived (message : pyval)
| Close (linger : Z).

(** [while self.reply is None: qtsleep(0.01)], followed for at most [fuel]
    sleeps; [sleeps] lists what arrives during each of them.  [None]: the
    loop is still waiting after [fuel] sleeps. *)
Fixpoint awaitReply (fuel : nat) (self : state) (sleeps : list (list slotCall))
    : option state :=
  if is_None (reply self) then
    match fuel with
    | O => None
    | S fuel' => awaitReply fuel' (qtsleep self (hd [] sleeps)) (tl sleeps)
    end
  else Some self.

(** One turn of [while self.running].  [evts] is the message the poll
    found, if any; [waits] what arrives during the sleeps of the wait for
    the reply; [interrupted] is [self.thread().isInterruptionRequested()];
    [idle] what arrives during the closing [qtsleep(0.5)].  The state is
    [None] when the turn is still waiting for the reply after [fuel]
    sleeps. *)
Definition turn (fuel : nat) (self : state) (evts : option pyval)
    (waits : list (list slotCall)) (interrupted : bool) (idle : list slotCall)
    : list action * option state :=
  let finish (s : state) : option state :=
    Some (qtsleep (if interrupted then Server (reply s) false else s) idle) in
  match evts with
  | None => ([], finish self)
  | Some message =>
      if eq_str message "ping" then ([SendPyobj (PyStr "pong")], finish self)
      else
        match awaitReply fuel self waits with
        | None => ([EmitMessageReceived message], None)
        | Some self' =>
            ([EmitMessageReceived message; SendPyobj (reply self')],
             finish (Server PyNone (running self')))
        end
  end.

(** What one turn of the loop meets. *)
Record turnInput : Type := TurnInput {
  evts : option pyval;
  waits : list (list slotCall);
  interrupted : bool;
  idle : list slotCall
}.

(** [while self.running: ...] and the closing of the socket after it,
    followed over the turns [turns]. *)
Fixpoint loop (fuel : nat) (self : state) (turns : list turnInput)
    : list action * option state :=
  if running self then
    match turns with
    | [] => ([], Some self)
    | t :: turns' =>
        match turn fuel self (evts t) (waits t) (interrupted t) (idle t) with
        | (acts, Some self') =>
            let '(acts', last) := loop fuel self' turns' in (acts ++ acts', last)
        | (acts, None) => (acts, None)
        end
    end
  else ([Close 1], Some self).

(** [run()] of a server made for [port]. *)
Definition run (fuel : nat) (port : string) (self : state) (turns : list turnInput)
    : list action * option state :=
  let '(acts, last) := loop fuel self turns in (Bind port :: acts, last).

End AppServer.

(** ** class App *)

(** What the code uses of a [Flowchart] and of its nodes.  Each operation
    gives the flowchart it leaves and how the call ended. *)
Class FlowchartOps (FC : Type) : Type := {
  (** [fc.setInput] called with keyword arguments *)
  setInput : FC -> list (string * pyval) -> FC * outcome pyval;
  (** [fc.outputValues()] *)
  outputValues : FC -> FC * outcome pyval;
  (** [name in fc.nodes()] *)
  hasNode : FC -> string -> bool;
  (** [setattr(fc.nodes()[name], property, value)] for a node that exists *)
  setNodeAttr : FC -> string -> string -> pyval -> FC * outcome unit
}.

Module App.

(** The keys of a mapping as keyword names, when all of them are strings. *)
Fixpoint keywords (items : list (pyval * pyval)) : option (list (string * pyval)) :=
  match items with
  | [] => Some []
  | (PyStr k, v) :: rest =>
      match keywords rest with
      | Some kw => Some ((k, v) :: kw)
      | None => None
      end
  | _ :: _ => None
  end.

(** Unpacking [value] into keyword arguments: Python raises [TypeError] when [value] is not a mapping
    and when one of its keys is not a string. *)
Definition unpack (value : pyval) : outcome (list (string * pyval)) :=
  match value with
  | PyDict items =>
      match keywords items with
      | Some kw => Returns kw
      | None => Raises (Exc TypeError "keywords must be strings")
      end
  | _ => Raises (Exc TypeError "argument after ** must be a mapping")
  end.

(** [targetName in ['', 'fc', 'flowchart']] *)
Definition isFlowchartName (targetName : string) : bool :=
  String.eqb targetName "" || String.eqb targetName "fc"
  || String.eqb targetName "flowchart".

Definition unknownProperty (targetProperty : string) : exception :=
  Exc ValueError
    (String.append
       "Flowchart supports only setting input values ('setInput') or getting output values ('getOutput'). '"
       (String.append targetProperty "' is not known.")).

Section OnMessage.
Context {FC : Type} `{FlowchartOps FC}.

(** [onMessageReceived((targetName, targetProperty, value))].
    [Returns reply]: the slot ran to its last line and emitted
    [replyReady(reply)].  [Raises e]: the exception [e] left the slot
    and nothing was emitted. *)
Definition onMessageReceived (fc : FC) (targetName targetProperty : string)
    (value : pyval) : FC * outcome pyval :=
  if isFlowchartName targetName then
    if String.eqb targetProperty "setInput" then
      match unpack value with
      | Returns kw => setInput fc kw
      | Raises e => (fc, Raises e)
      | Blocks => (fc, Blocks)
      end
    else if String.eqb targetProperty "getOutput" then outputValues fc
    else (fc, Returns (PyException (unknownProperty targetProperty)))
  else
    if hasNode fc targetName then
      match setNodeAttr fc targetName targetProperty value with
      | (fc', Returns _) => (fc', Returns (PyBool true))
      | (fc', Raises e) => (fc', Returns (PyException e))
      | (fc', Blocks) => (fc', Blocks)
      end
    else (fc, Returns (PyException (Exc KeyError targetName))).
End OnMessage.

(** What [onQuit] looks at: whether [self.server] and [self.serverThread]
    are still there. *)
Record state : Type := AppState {
  server : bool;        (* [self.server is not None] *)
  serverThread : bool   (* [self.serverThread is not None] *)
}.

(** [__init__] makes both. *)
Definition init : state := AppState true true.



End App.

(** ** An app process: the [App] and its [AppServer]

    [App.__init__] connects [server.messageReceived] to [onMessageReceived]
    and [replyReady] to [server.loadReply], and [endProcess] to
    [server.quit].  The server runs on its own thread, so the reply the app
    emits and a quit reach the server during one of its sleeps. *)

Module Worker.

Inductive arrival : Type :=
| QuitArrives      (* the queued call of [quit] is carried out *)
| ReplyArrives.    (* the queued call of [loadReply], if there is one, is carried out *)

(** The [replyReady] signal a run of [onMessageReceived] emitted. *)
Definition emitted (o : outcome pyval) : option pyval :=
  match o with Returns reply => Some reply | _ => None end.

(** The slot calls of one sleep; [underway] is the emitted reply that has
    not reached the server yet. *)
Fixpoint duringSleep (underway : option pyval) (marks : list arrival)
    : option pyval * list AppServer.slotCall :=
  match marks with
  | [] => (underway, [])
  | QuitArrives :: rest =>
      let '(u, calls) := duringSleep underway rest in (u, AppServer.CallQuit :: calls)
  | ReplyArrives :: rest =>
      match underway with
      | Some reply =>
          let '(u, calls) := duringSleep None rest in
          (u, AppServer.CallLoadReply reply :: calls)
      | None => duringSleep None rest
      end
  end.

Fixpoint arrivals (underway : option pyval) (sched : list (list arrival))
    : list (list AppServer.slotCall) :=
  match sched with
  | [] => []
  | marks :: sched' =>
      let '(u, calls) := duringSleep underway marks in calls :: arrivals u sched'
  end.

Section Serve.
Context {FC : Type} `{FlowchartOps FC}.

(** The server receives the request [(targetName, targetProperty,
    value)]; the app handles it; [sched] tells during which sleep of
    the server what arrives. *)
Definition serve (fuel : nat) (fc : FC) (self : AppServer.state)
    (targetName targetProperty : string) (value : pyval)
    (sched : list (list arrival)) (interrupted : bool)
    (idle : list AppServer.slotCall)
    : FC * (list AppServer.action * option AppServer.state) :=
  let '(fc', o) := App.onMessageReceived fc targetName targetProperty value in
  (fc',
   AppServer.turn fuel self
     (Some (AppManager.request targetName targetProperty value))
     (arrivals (emitted o) sched) interrupted idle).
End Serve.

End Worker.

(** ** The manager and its monitor, side by side

    The manager lives on the main thread, the monitor on its own thread.
    [newProcess] and [processTerminated] cross from one thread to the other,
    so an emitted signal waits in the receiver's queue until the receiver
    handles its events.  [closeEvent] ends the life of both: the states
    followed here are those before it. *)

Module System.

Record state : Type := Sys {
  manager : AppManager.state;
  monitor : ProcessMonitor.state;
  newProcess : list (IdType * QProcess);   (* emitted, [onNewProcess] not yet run *)
  processTerminated : list IdType;         (* emitted, [onProcessEneded] not yet run *)
  registered : list IdType;   (* history: the ids [onNewProcess] was run with *)
  notified : list IdType      (* history: the ids [processTerminated] was emitted with *)
}.

Definition init (initialPort : Z) : state :=
  Sys (AppManager.init initialPort) ProcessMonitor.init [] [] [] [].

Inductive event : Type :=
| LaunchApp (Id : IdType) (module func : string) (args : list string)
| MonitorHandlesEvent            (* the oldest queued [onNewProcess] runs *)
| MonitorCycle (st : ProcessState)
| ManagerHandlesEvent.           (* the oldest queued [onProcessEneded] runs *)

(** The [newProcess] signals among the actions of a call. *)
Definition newProcessSignals (acts : list action) : list (IdType * QProcess) :=
  flat_map (fun a => match a with EmitNewProcess Id p => [(Id, p)] | _ => [] end) acts.

Definition step (s : state) (e : event) : outcome state :=
  match e with
  | LaunchApp Id module func args =>
      match AppManager.launchApp (manager s) Id module func args with
      | (m, Returns _, acts) =>
          Returns (Sys m (monitor s) (newProcess s ++ newProcessSignals acts)
                       (processTerminated s) (registered s) (notified s))
      | (_, Raises e, _) => Raises e
      | (_, Blocks, _) => Blocks
      end
  | MonitorHandlesEvent =>
      match newProcess s with
      | [] => Returns s
      | (Id, p) :: queue =>
          Returns (Sys (manager s) (ProcessMonitor.onNewProcess (monitor s) Id p)
                       queue (processTerminated s) (registered s ++ [Id]) (notified s))
      end
  | MonitorCycle st =>
      match ProcessMonitor.cycle st (monitor s) with
      | (mon, emitted, Returns _) =>
          Returns (Sys (manager s) mon (newProcess s)
                       (processTerminated s ++ emitted) (registered s)
                       (notified s ++ emitted))
      | (_, _, Raises e) => Raises e
      | (_, _, Blocks) => Blocks
      end
  | ManagerHandlesEvent =>
      match processTerminated s with
      | [] => Returns s
      | Id :: queue =>
          match AppManager.onProcessEneded (manager s) Id with
          | (m, Returns _) =>
              Returns (Sys m (monitor s) (newProcess s) queue (registered s) (notified s))
          | (_, Raises e) => Raises e
          | (_, Blocks) => Blocks
          end
      end
end.

(** The events of [es], one after the other, as long as none faults. *)
Fixpoint steps (s : state) (es : list event) : outcome state :=
  match es with
  | [] => Returns s
  | e :: es' =>
      match step s e with
      | Returns s' => steps s' es'
      | stopped => stopped
      end
  end.

End System.

(** ** A small flowchart to run the code on

    Its state is the list of inputs set so far; [outputValues] gives them
    back; it has one node, [fit], with one property, [order], that takes
    integers. *)

Module Example.

Definition toy : Type := list (string * pyval).

Definition as_dict (kw : list (string * pyval)) : pyval :=
  PyDict (map (fun '(k, v) => (PyStr k, v)) kw).

#[global] Instance toyOps : FlowchartOps toy := {
  setInput fc kw := (kw ++ fc, Returns PyNone);
  outputValues fc := (fc, Returns (as_dict fc));
  hasNode fc name := String.eqb name "fit";
  setNodeAttr fc name property value :=
    if String.eqb property "order" then
      match value with
      | PyInt _ => (("fit.order"%string, value) :: fc, Returns tt)
      | _ => (fc, Raises (Exc TypeError "order must be an integer"))
      end
    else (fc, Raises (Exc AttributeError property))
}.

Definition proc (n : nat) : QProcess := Process n.

(** The process with object number [n] has stopped, the others run. *)
Definition stopped (n : nat) : ProcessState :=
  fun p => if Nat.eqb (process_object p) n then 0 else 2.

(** An app that answers [pong] to a ping and [True] to anything else. *)
Definition politePeer : AppManager.Peer :=
  fun _ obj => Some (if eq_str obj "ping" then PyStr "pong" else PyBool true).

(** An app whose [message] requests all fail. *)
Definition failingPeer : AppManager.Peer :=
  fun _ obj => Some (if eq_str obj "ping" then PyStr "pong"
                     else PyException (Exc KeyError "nonode")).

(** A manager after launching apps [1] and ["b"]. *)
Definition twoApps : AppManager.state :=
  fst (fst (AppManager.launchApp
              (fst (fst (AppManager.launchApp (AppManager.init 12345)
                           (IdInt 1) "plottr.apps.autoplot" "autoplotDDH5" [])))
              (IdStr "b") "plottr.apps.autoplot" "autoplotDDH5" [])).

Definition launch (Id : IdType) : System.event :=
  System.LaunchApp Id "plottr.apps.autoplot" "autoplotDDH5" [].

(** Apps [1] and ["b"] are launched, then handed to the monitor. *)
Definition launchTwo : list System.event :=
  [launch (IdInt 1); launch (IdStr "b");
   System.MonitorHandlesEvent; System.MonitorHandlesEvent].

(** After that, app [1] stops; the monitor sees it and the manager reacts. *)
Definition oneStopped : list System.event :=
  launchTwo ++ [System.MonitorCycle (stopped 0); System.ManagerHandlesEvent].

(** The state the events [es] lead to from a manager made with the
    default port. *)
Definition stateAfter (es : list System.event) : System.state :=
  match System.steps (System.init 12345) es with
  | Returns s => s
  | _ => System.init 12345
  end.

End Example.

(** ** Notions the properties are stated with *)

(** [p] is the lowest integer from [base] on that is not in [used]. *)
Definition lowestFree (base : Z) (used : list Z) (p : Z) : Prop :=
  base <= p /\ ~ In p used /\ forall q, base <= q < p -> In q used.

(** The states the manager and its monitor can get into, started with
    [initialPort]. *)
Definition reachable (initialPort : Z) (s : System.state) : Prop :=
  exists es, System.steps (System.init initialPort) es = Returns s.

(** The ids the monitor still has to report on or has reported on without
    the manager having reacted yet: those it tracks, those waiting to be
    handed to it, and those whose termination it has signalled. *)
Definition pending (s : System.state) : list IdType :=
  Dict.keys (ProcessMonitor.processes (System.monitor s))
  ++ map fst (System.newProcess s)
  ++ System.processTerminated s.

(** What holds of every reachable state. *)
Record invariant (initialPort : Z) (s : System.state) : Prop := {
  inv_base : AppManager.initialPort (System.manager s) = initialPort;
  inv_keys : NoDup (Dict.keys (AppManager.processes (System.manager s)));
  inv_ports : NoDup (AppManager.usedPorts (System.manager s));
  inv_ports_ge : forall q, In q (AppManager.usedPorts (System.manager s)) -> initialPort <= q;
  inv_pending : NoDup (pending s);
  inv_pending_known :
    forall Id, In Id (pending s) ->
               In Id (Dict.keys (AppManager.processes (System.manager s)));
  inv_history :
    Permutation (System.notified s
                 ++ Dict.keys (ProcessMonitor.processes (System.monitor s)))
                (System.registered s);
  inv_checking : ProcessMonitor.checking (System.monitor s) = true
}.

(** The manager handles the queued [processTerminated] signals, all of them. *)
Definition handleAll (s : System.state) : outcome System.state :=
  System.steps s (repeat System.ManagerHandlesEvent
                         (List.length (System.processTerminated s))).

(** Every [loadReply] call that arrives in [waits] carries [None]. *)
Definition repliesNone (waits : list (list AppServer.slotCall)) : bool :=
  forallb (forallb (fun c => match c with
                             | AppServer.CallQuit => true
                             | AppServer.CallLoadReply r => is_None r
                             end)) waits.

(** The library objects the records of a table hold. *)
Definition objects (d : Dict.t AppManager.WorkerRecord) : list nat :=
  flat_map (fun '(_, data) => [process_object (AppManager.process data);
                               socket_object (AppManager.socket data)]) d.

(** The records hold pairwise different objects, all created by the manager. *)
Definition objectsOk (m : AppManager.state) : Prop :=
  NoDup (objects (AppManager.processes m))
  /\ forall n, In n (objects (AppManager.processes m)) -> (n < AppManager.created m)%nat.

(** A call of [close] on a process or on a socket, or of [destroy] on the
    context. *)
Definition isClose (a : action) : bool :=
  match a with
  | ProcessClose _ | SocketClose _ _ | ContextDestroy _ => true
  | _ => false
  end.

(** How often [acts] closes the process [p], the socket [s], destroys the
    context. *)
Definition processCloses (p : QProcess) (acts : list action) : nat :=
  List.length (filter (fun a => match a with
                                | ProcessClose q => Nat.eqb (process_object q) (process_object p)
                                | _ => false
                                end) acts).

Definition socketCloses (s : Socket) (acts : list action) : nat :=
  List.length (filter (fun a => match a with
                                | SocketClose q _ => Nat.eqb (socket_object q) (socket_object s)
                                | _ => false
                                end) acts).

Definition contextDestroys (acts : list action) : nat :=
  List.length (filter (fun a => match a with ContextDestroy _ => true | _ => false end) acts).


(** [launchApp] called for each id of [ids] in turn, with the same module
    and function. *)
Definition launchAll (self : AppManager.state) (ids : list IdType)
    (module func : string) (args : list string) : AppManager.state :=
  fold_left (fun m Id => fst (fst (AppManager.launchApp m Id module func args))) ids self.

(** The ports [base], [base + 1], ..., [base + n - 1]. *)
Definition consecutive (base : Z) (n : nat) : list Z :=
  map (fun i => base + Z.of_nat i) (seq 0 n).


(** The object a turn of the server sent back, if it sent one. *)
Fixpoint sentObject (acts : list AppServer.action) : option pyval :=
  match acts with
  | [] => None
  | AppServer.SendPyobj obj :: _ => Some obj
  | _ :: acts' => sentObject acts'
  end.

(** The monitor watches, and is about to be handed, the processes the
    manager's table records under the same ids. *)
Definition agree (s : System.state) : Prop :=
  forall Id p,
    In (Id, p) (ProcessMonitor.processes (System.monitor s))
    \/ In (Id, p) (System.newProcess s) ->
    exists data,
      Dict.get Id (AppManager.processes (System.manager s)) = Some data
      /\ AppManager.process data = p.

(** Every id of the table is one the monitor is answerable for. *)
Definition covered (s : System.state) : Prop :=
  forall Id, In Id (Dict.keys (AppManager.processes (System.manager s))) -> In Id (pending s).

(** No reply arrives during the sleep [marks]; one does. *)
Definition noReply (marks : list Worker.arrival) : bool :=
  forallb (fun a => match a with Worker.QuitArrives => true | Worker.ReplyArrives => false end)
          marks.

Definition hasReply (marks : list Worker.arrival) : bool := negb (noReply marks).

(** The calls [calls] are calls of [quit] only. *)
Definition quitsOnly (calls : list AppServer.slotCall) : bool :=
  forallb (fun c => match c with
                    | AppServer.CallQuit => true
                    | AppServer.CallLoadReply _ => false
                    end) calls.

(** A call of [quit] is among [calls]. *)
Definition quitArrives (calls : list AppServer.slotCall) : bool :=
  existsb (fun c => match c with
                    | AppServer.CallQuit => true
                    | AppServer.CallLoadReply _ => false
                    end) calls.


(** Some record of the table [d] has the port [q]. *)
Definition portHeld (d : Dict.t AppManager.WorkerRecord) (q : Z) : Prop :=
  exists Id data, Dict.get Id d = Some data /\ AppManager.port data = q.

(** The records of the table [d] have pairwise different ports. *)
Definition portsDistinct (d : Dict.t AppManager.WorkerRecord) : Prop :=
  forall Id1 Id2 data1 data2,
    Dict.get Id1 d = Some data1 -> Dict.get Id2 d = Some data2 ->
    AppManager.port data1 = AppManager.port data2 -> Id1 = Id2.

(** * Properties *)

(** ** Ids and dictionaries *)

Lemma Id_eqb_eq (a b : IdType) : Id_eqb a b = true <-> a = b.
Proof.
  destruct a as [x|x], b as [y|y]; simpl; split; intro E;
    try discriminate; try (inversion E; subst).
  - apply Z.eqb_eq in E. now subst.
  - apply Z.eqb_refl.
  - apply String.eqb_eq in E. now subst.
  - apply String.eqb_refl.
Qed.

Lemma Id_eqb_refl (a : IdType) : Id_eqb a a = true.
Proof. now apply Id_eqb_eq. Qed.

Lemma Id_eqb_neq (a b : IdType) : Id_eqb a b = false <-> a <> b.
Proof.
  split.
  - intros E ->. rewrite Id_eqb_refl in E. discriminate.
  - intro N. destruct (Id_eqb a b) eqn:E; [|reflexivity].
    apply Id_eqb_eq in E. contradiction.
Qed.

Lemma Id_eq_dec (a b : IdType) : {a = b} + {a <> b}.
Proof.
  destruct (Id_eqb a b) eqn:E.
  - left. now apply Id_eqb_eq.
  - right. now apply Id_eqb_neq.
Defined.

Section DictFacts.
Context {V : Type}.
Implicit Types (d : Dict.t V) (k : IdType) (v : V).

Lemma get_None_keys k d : Dict.get k d = None <-> ~ In k (Dict.keys d).
Proof.
  induction d as [|[k' v'] d IH]; simpl.
  - tauto.
  - destruct (Id_eqb k k') eqn:E.
    + apply Id_eqb_eq in E. subst. split; [discriminate | tauto].
    + apply Id_eqb_neq in E. rewrite IH. split.
      * intros N [C|C]; [congruence | tauto].
      * tauto.
Qed.

Lemma mem_keys k d : Dict.mem k d = true <-> In k (Dict.keys d).
Proof.
  unfold Dict.mem. destruct (Dict.get k d) eqn:G.
  - split; [intros _ | reflexivity].
    destruct (in_dec Id_eq_dec k (Dict.keys d)) as [I|N]; [assumption|].
    apply get_None_keys in N. congruence.
  - split; [discriminate|]. intro I. apply get_None_keys in G. contradiction.
Qed.

Lemma mem_false_keys k d : Dict.mem k d = false <-> ~ In k (Dict.keys d).
Proof.
  rewrite <- mem_keys. destruct (Dict.mem k d); split; congruence.
Qed.

Lemma get_Some_In k v d : Dict.get k d = Some v -> In (k, v) d.
Proof.
  induction d as [|[k' v'] d IH]; simpl; [discriminate|].
  destruct (Id_eqb k k') eqn:E.
  - apply Id_eqb_eq in E. intros [= ->]. subst. now left.
  - intro G. right. now apply IH.
Qed.

(** A key that is not there goes last. *)
Lemma set_new k v d : ~ In k (Dict.keys d) -> Dict.set k v d = d ++ [(k, v)].
Proof.
  induction d as [|[k' v'] d IH]; simpl; intro N; [reflexivity|].
  destruct (Id_eqb k k') eqn:E.
  - apply Id_eqb_eq in E. subst. tauto.
  - f_equal. apply IH. tauto.
Qed.

(** [del] takes out the entry of the key, and only it. *)
Lemma del_Some_split k d d' :
  Dict.del k d = Some d' ->
  exists v d1 d2, d = d1 ++ (k, v) :: d2 /\ d' = d1 ++ d2 /\ ~ In k (Dict.keys d1).
Proof.
  revert d'. induction d as [|[k' v'] d IH]; simpl; intros d' D; [discriminate|].
  destruct (Id_eqb k k') eqn:E.
  - apply Id_eqb_eq in E. subst k'. injection D as <-.
    exists v', [], d. simpl. tauto.
  - destruct (Dict.del k d) as [d''|] eqn:D'; [|discriminate].
    injection D as <-.
    destruct (IH d'' eq_refl) as (v & d1 & d2 & -> & -> & N).
    exists v, ((k', v') :: d1), d2. simpl. repeat split.
    apply Id_eqb_neq in E. intros [C|C]; [congruence | tauto].
Qed.

Lemma del_present k d : In k (Dict.keys d) -> exists d', Dict.del k d = Some d'.
Proof.
  induction d as [|[k' v'] d IH]; simpl; [tauto|].
  intros I. destruct (Id_eqb k k') eqn:E; [eauto|].
  apply Id_eqb_neq in E. destruct I as [C|I]; [congruence|].
  destruct (IH I) as [d' ->]. eauto.
Qed.

Lemma del_None_keys k d : Dict.del k d = None <-> ~ In k (Dict.keys d).
Proof.
  split.
  - intros D I. destruct (del_present k d I) as [d' E]. congruence.
  - induction d as [|[k' v'] d IH]; simpl; intro N; [reflexivity|].
    destruct (Id_eqb k k') eqn:E.
    + apply Id_eqb_eq in E. subst. tauto.
    + rewrite IH; tauto.
Qed.

Lemma del_keys_perm k d d' :
  Dict.del k d = Some d' -> Permutation (Dict.keys d) (k :: Dict.keys d').
Proof.
  intro D. destruct (del_Some_split _ _ _ D) as (v & d1 & d2 & -> & -> & _).
  unfold Dict.keys. rewrite !map_app. simpl.
  symmetry. apply Permutation_middle.
Qed.

Lemma del_values_perm k d d' :
  Dict.del k d = Some d' ->
  exists v, Dict.get k d = Some v /\ Permutation (Dict.values d) (v :: Dict.values d').
Proof.
  revert d'. induction d as [|[k' v'] d IH]; simpl; intros d' D; [discriminate|].
  destruct (Id_eqb k k') eqn:E.
  - injection D as <-. exists v'. split; [reflexivity | apply Permutation_refl].
  - destruct (Dict.del k d) as [d''|] eqn:D'; [|discriminate].
    injection D as <-. destruct (IH d'' eq_refl) as (v & G & P).
    exists v. split; [assumption|]. simpl.
    rewrite P. apply perm_swap.
Qed.
End DictFacts.

(** ** The port search *)

Lemma port_in_In (p : Z) (used : list Z) : AppManager.port_in p used = true <-> In p used.
Proof.
  unfold AppManager.port_in. rewrite existsb_exists. split.
  - intros (x & I & E). apply Z.eqb_eq in E. now subst.
  - intro I. exists p. split; [assumption | apply Z.eqb_refl].
Qed.

Lemma port_in_false (p : Z) (used : list Z) : AppManager.port_in p used = false <-> ~ In p used.
Proof.
  rewrite <- port_in_In. destruct (AppManager.port_in p used); split; congruence.
Qed.

Lemma findPort_Some (fuel : nat) (used : list Z) (base p : Z) :
  AppManager.findPort fuel used base = Some p -> lowestFree base used p.
Proof.
  revert base. induction fuel as [|fuel IH]; simpl; intros base F; [discriminate|].
  destruct (AppManager.port_in base used) eqn:U.
  - destruct (IH _ F) as (L & N & A). repeat split; [lia | assumption |].
    intros q Q. destruct (Z.eq_dec q base) as [->|D].
    + now apply port_in_In.
    + apply A. lia.
  - injection F as <-. repeat split; [lia | now apply port_in_false | intros; lia].
Qed.

(** A search that is still running after [fuel] tests has found the [fuel]
    ports from [base] on all in use. *)
Lemma findPort_None (fuel : nat) (used : list Z) (base : Z) :
  AppManager.findPort fuel used base = None ->
  forall i, (i < fuel)%nat -> In (base + Z.of_nat i) used.
Proof.
  revert base. induction fuel as [|fuel IH]; simpl; intros base F i L; [lia|].
  destruct (AppManager.port_in base used) eqn:U; [|discriminate].
  destruct i as [|i].
  - rewrite Z.add_0_r. now apply port_in_In.
  - replace (base + Z.of_nat (S i)) with (base + 1 + Z.of_nat i) by lia.
    apply IH; [assumption | lia].
Qed.

(** The loop ends: [length used + 1] different ports cannot all be in use. *)
Lemma findPort_terminates (used : list Z) (base : Z) :
  exists p, AppManager.findPort (S (List.length used)) used base = Some p.
Proof.
  destruct (AppManager.findPort (S (List.length used)) used base) as [p|] eqn:F; [eauto|].
  exfalso.
  pose proof (findPort_None _ _ _ F) as A.
  set (tried := map (fun i => base + Z.of_nat i) (seq 0 (S (List.length used)))).
  assert (ND : NoDup tried).
  { apply Finite.Injective_map_NoDup; [|apply seq_NoDup].
    intros x y E. lia. }
  assert (I : incl tried used).
  { intros q Q. apply in_map_iff in Q. destruct Q as (i & <- & Q).
    apply in_seq in Q. apply A. lia. }
  pose proof (NoDup_incl_length ND I) as L.
  unfold tried in L. rewrite length_map, length_seq in L. lia.
Qed.

Lemma lowestFree_unique (base : Z) (used : list Z) (p q : Z) :
  lowestFree base used p -> lowestFree base used q -> p = q.
Proof.
  intros (Lp & Np & Ap) (Lq & Nq & Aq).
  destruct (Z.lt_trichotomy p q) as [C|[C|C]]; [|assumption|].
  - exfalso. apply Np, Aq. lia.
  - exfalso. apply Nq, Ap. lia.
Qed.

(** ** launchApp *)

Lemma firstAvailablePort_lowest (self : AppManager.state) :
  exists p, AppManager.firstAvailablePort self = Some p
            /\ lowestFree (AppManager.initialPort self) (AppManager.usedPorts self) p.
Proof.
  unfold AppManager.firstAvailablePort.
  destruct (findPort_terminates (AppManager.usedPorts self) (AppManager.initialPort self))
    as [p F].
  exists p. split; [assumption | eapply findPort_Some; eassumption].
Qed.

Lemma launchApp_known (self : AppManager.state) (Id : IdType) (module func : string)
    (args : list string) :
  Dict.mem Id (AppManager.processes self) = true ->
  AppManager.launchApp self Id module func args
  = (self, Returns false, [LogWarning (IdAlreadyExists Id)]).
Proof. unfold AppManager.launchApp. now intros ->. Qed.

Lemma launchApp_new (self : AppManager.state) (Id : IdType) (module func : string)
    (args : list string) :
  Dict.mem Id (AppManager.processes self) = false ->
  exists p,
    lowestFree (AppManager.initialPort self) (AppManager.usedPorts self) p
    /\ AppManager.launchApp self Id module func args
       = (AppManager.Manager
            (AppManager.processes self
             ++ [(Id, AppManager.Worker (Process (AppManager.created self)) p
                        (Sock (S (AppManager.created self))))])
            (AppManager.initialPort self) (AppManager.procmon self)
            (AppManager.procmonThread self) (S (S (AppManager.created self))),
          Returns true,
          [ProcessStart (Process (AppManager.created self)) p module func args;
           ProcessWaitForStarted (Process (AppManager.created self)) 100;
           SocketConnect (Sock (S (AppManager.created self))) p;
           PollerRegister (Sock (S (AppManager.created self)));
           EmitNewProcess Id (Process (AppManager.created self))]).
Proof.
  intro M. destruct (firstAvailablePort_lowest self) as (p & F & L).
  exists p. split; [assumption|].
  unfold AppManager.launchApp. rewrite M, F. simpl.
  rewrite set_new; [reflexivity | now apply mem_false_keys].
Qed.

Lemma usedPorts_app (self : AppManager.state) (d : Dict.t AppManager.WorkerRecord) c1 c2 c3 c4 Id data :
  AppManager.usedPorts
    (AppManager.Manager (d ++ [(Id, data)]) c1 c2 c3 c4)
  = map AppManager.port (Dict.values d) ++ [AppManager.port data].
Proof.
  unfold AppManager.usedPorts, Dict.values. simpl. now rewrite !map_app.
Qed.

Lemma NoDup_snoc {A : Type} (l : list A) (x : A) :
  NoDup l -> ~ In x l -> NoDup (l ++ [x]).
Proof.
  intros N I. apply NoDup_app; [assumption | repeat constructor; simpl; tauto |].
  intros y Y [<-|[]]. contradiction.
Qed.

(** ** One cycle of the monitor *)

(** The scan never meets a missing key: every id of the snapshot is still in
    the dictionary when its turn comes.  It splits the dictionary into the
    ids it emitted and the entries it left. *)
Lemma scan_spec (st : ProcessState) (copy procs : Dict.t QProcess) :
  NoDup (Dict.keys copy) ->
  (forall Id, In Id (Dict.keys copy) -> In Id (Dict.keys procs)) ->
  exists d emitted,
    ProcessMonitor.scan st copy procs = (d, emitted, Returns tt)
    /\ Permutation (Dict.keys procs) (emitted ++ Dict.keys d)
    /\ (forall Id p, In (Id, p) copy -> st p = 0 -> In Id emitted).
Proof.
  revert procs. induction copy as [|[Id p] rest IH]; simpl; intros procs ND K.
  - exists procs, []. simpl. repeat split; [reflexivity | tauto].
  - inversion ND as [|? ? NI ND']; subst.
    destruct (st p =? 0) eqn:S.
    + destruct (del_present Id procs (K Id (or_introl eq_refl))) as [procs' D].
      rewrite D. pose proof (del_keys_perm _ _ _ D) as P.
      destruct (IH procs' ND') as (d & emitted & E & Pd & A).
      { intros Id' I. assert (I' : In Id' (Id :: Dict.keys procs')).
        { eapply Permutation_in; [exact P | apply K; now right]. }
        destruct I' as [<-|I']; [contradiction | assumption]. }
      rewrite E. exists d, (Id :: emitted). repeat split.
      * rewrite P. simpl. now constructor.
      * intros Id' p' [[= <- <-]|I] Z; [now left | right; eauto].
    + destruct (IH procs ND') as (d & emitted & E & Pd & A).
      { intros Id' I. apply K. now right. }
      exists d, emitted. repeat split; [assumption | assumption |].
      intros Id' p' [[= <- <-]|I] Z; [|eauto].
      apply Z.eqb_neq in S. contradiction.
Qed.

Lemma cycle_spec (st : ProcessState) (self : ProcessMonitor.state) :
  NoDup (Dict.keys (ProcessMonitor.processes self)) ->
  exists d emitted,
    ProcessMonitor.cycle st self
    = (ProcessMonitor.Monitor d (ProcessMonitor.checking self), emitted, Returns tt)
    /\ Permutation (Dict.keys (ProcessMonitor.processes self)) (emitted ++ Dict.keys d)
    /\ (ProcessMonitor.checking self = true ->
        forall Id p, In (Id, p) (ProcessMonitor.processes self) -> st p = 0 -> In Id emitted).
Proof.
  intro ND. unfold ProcessMonitor.cycle. destruct self as [procs checking]. simpl in *.
  destruct checking.
  - destruct (scan_spec st procs procs ND (fun _ I => I)) as (d & emitted & E & P & A).
    rewrite E. exists d, emitted. auto.
  - exists procs, []. simpl. repeat split; [reflexivity | discriminate].
Qed.

(** However many cycles the monitor runs without a new registration, it
    never faults and reports no id twice: an id it has emitted is no longer
    in its dictionary. *)
Lemma run_reports_once (sts : list ProcessState) (self : ProcessMonitor.state) :
  NoDup (Dict.keys (ProcessMonitor.processes self)) ->
  exists self' emitted,
    ProcessMonitor.run sts self = (self', emitted, Returns tt)
    /\ Permutation (Dict.keys (ProcessMonitor.processes self))
         (emitted ++ Dict.keys (ProcessMonitor.processes self'))
    /\ NoDup (emitted ++ Dict.keys (ProcessMonitor.processes self')).
Proof.
  revert self. induction sts as [|st sts IH]; intros self ND; simpl.
  - exists self, []. simpl. auto.
  - destruct (cycle_spec st self ND) as (d & emitted & E & P & _). rewrite E.
    pose proof (Permutation_NoDup P ND) as ND1.
    destruct (IH (ProcessMonitor.Monitor d (ProcessMonitor.checking self)))
      as (self' & emitted' & E' & P' & ND').
    { simpl. now apply NoDup_app_remove_l in ND1. }
    rewrite E'. exists self', (emitted ++ emitted'). simpl in P'.
    assert (PP : Permutation (Dict.keys (ProcessMonitor.processes self))
                   ((emitted ++ emitted') ++ Dict.keys (ProcessMonitor.processes self'))).
    { rewrite P, P', app_assoc. reflexivity. }
    repeat split; [exact PP | exact (Permutation_NoDup PP ND)].
Qed.

(** ** What every reachable state satisfies *)

Lemma invariant_init (base : Z) : invariant base (System.init base).
Proof.
  constructor; simpl; try constructor; try reflexivity; simpl; tauto.
Qed.

Lemma NoDup_app_l {A : Type} (l1 l2 : list A) : NoDup (l1 ++ l2) -> NoDup l1.
Proof. intro N. now apply NoDup_app_remove_r in N. Qed.

Lemma NoDup_app_disjoint {A : Type} (l1 l2 : list A) :
  NoDup (l1 ++ l2) -> forall a, In a l1 -> ~ In a l2.
Proof.
  induction l1 as [|x l1 IH]; simpl; intros N a I; [contradiction|].
  inversion N as [|? ? F N']; subst. destruct I as [->|I].
  - intro C. apply F. apply in_or_app. now right.
  - now apply IH.
Qed.

Lemma perm_insert {A : Type} (x : A) (l1 l2 l3 : list A) :
  Permutation (x :: l1 ++ l2 ++ l3) (l1 ++ (l2 ++ [x]) ++ l3).
Proof.
  rewrite <- app_assoc. simpl. rewrite !app_assoc. apply Permutation_middle.
Qed.

Lemma keys_app {V : Type} (d1 d2 : Dict.t V) :
  Dict.keys (d1 ++ d2) = Dict.keys d1 ++ Dict.keys d2.
Proof. apply map_app. Qed.

Lemma invariant_launch (base : Z) (s : System.state) Id module func args :
  invariant base s ->
  exists s', System.step s (System.LaunchApp Id module func args) = Returns s'
             /\ invariant base s'.
Proof.
  intros [Ib Ik Ip Ig In_ Ikn Ih Ic]. destruct s as [m mon nq tq reg ntf]. simpl in *.
  destruct (Dict.mem Id (AppManager.processes m)) eqn:M.
  - rewrite (launchApp_known _ _ _ _ _ M). simpl. rewrite app_nil_r.
    eexists. split; [reflexivity|]. now constructor.
  - destruct (launchApp_new m Id module func args M) as (p & (Lb & Ln & La) & ->).
    simpl. eexists. split; [reflexivity|].
    apply mem_false_keys in M.
    constructor; simpl.
    + assumption.
    + rewrite keys_app. simpl. now apply NoDup_snoc.
    + rewrite usedPorts_app; [|exact m]. now apply NoDup_snoc.
    + rewrite usedPorts_app; [|exact m]. intros q Q. apply in_app_or in Q.
      destruct Q as [Q|[<-|[]]]; [now apply Ig | simpl; lia].
    + unfold pending in *. simpl in *. rewrite map_app. simpl.
      assert (F : ~ In Id (Dict.keys (ProcessMonitor.processes mon) ++ map fst nq ++ tq)).
      { intro C. apply M. now apply Ikn. }
      eapply Permutation_NoDup; [|constructor; [exact F | exact In_]].
      apply perm_insert.
    + unfold pending in *. simpl in *. rewrite map_app, keys_app. simpl.
      intros Id' I. apply in_or_app.
      rewrite !in_app_iff in I. simpl in I.
      destruct I as [I|[[I|[<-|[]]]|I]];
        [left; apply Ikn | left; apply Ikn | now right; left | left; apply Ikn];
        rewrite !in_app_iff; tauto.
    + assumption.
    + assumption.
Qed.

Lemma invariant_monitor_event (base : Z) (s : System.state) :
  invariant base s ->
  exists s', System.step s System.MonitorHandlesEvent = Returns s' /\ invariant base s'.
Proof.
  intros [Ib Ik Ip Ig In_ Ikn Ih Ic]. destruct s as [m mon nq tq reg ntf]. simpl in *.
  destruct nq as [|[Id p] nq].
  - eexists. split; [reflexivity|]. now constructor.
  - eexists. split; [reflexivity|].
    unfold pending in *. simpl in *.
    assert (F : ~ In Id (Dict.keys (ProcessMonitor.processes mon))).
    { intro C. apply NoDup_remove_2 in In_. apply In_. apply in_or_app. now left. }
    constructor; simpl; try assumption; unfold pending; simpl;
      rewrite (set_new _ _ _ F), keys_app; simpl.
    + now rewrite <- app_assoc.
    + intros Id' I. apply Ikn. now rewrite <- app_assoc in I.
    + rewrite app_assoc. now apply Permutation_app_tail.
Qed.

Lemma invariant_cycle (base : Z) (s : System.state) (st : ProcessState) :
  invariant base s ->
  exists s', System.step s (System.MonitorCycle st) = Returns s' /\ invariant base s'.
Proof.
  intros [Ib Ik Ip Ig In_ Ikn Ih Ic]. destruct s as [m mon nq tq reg ntf]. simpl in *.
  unfold pending in *. simpl in *.
  destruct (cycle_spec st mon (NoDup_app_l _ _ In_)) as (d & emitted & E & P & _).
  rewrite E. eexists. split; [reflexivity|].
  assert (PP : Permutation
                 (Dict.keys (ProcessMonitor.processes mon) ++ map fst nq ++ tq)
                 (Dict.keys d ++ map fst nq ++ tq ++ emitted)).
  { rewrite P. rewrite (Permutation_app_comm emitted).
    rewrite <- !app_assoc. apply Permutation_app_head.
    rewrite (app_assoc (map fst nq) tq emitted).
    apply Permutation_app_comm. }
  constructor; simpl; try assumption; unfold pending; simpl.
  - eapply Permutation_NoDup; eassumption.
  - intros Id I. apply Ikn. eapply Permutation_in; [symmetry; exact PP | exact I].
  - rewrite <- Ih, P, app_assoc. reflexivity.
Qed.

(** ** The termination handler *)

(** On a key of the table the handler takes the entry out, and with it the
    entry's port. *)
Lemma onProcessEneded_known (m : AppManager.state) (Id : IdType) :
  NoDup (Dict.keys (AppManager.processes m)) ->
  In Id (Dict.keys (AppManager.processes m)) ->
  exists d data,
    AppManager.onProcessEneded m Id = (AppManager.with_processes m d, Returns tt)
    /\ Dict.get Id (AppManager.processes m) = Some data
    /\ Permutation (Dict.keys (AppManager.processes m)) (Id :: Dict.keys d)
    /\ Permutation (AppManager.usedPorts m)
         (AppManager.port data :: AppManager.usedPorts (AppManager.with_processes m d)).
Proof.
  intros ND I. destruct (del_present _ _ I) as [d D].
  destruct (del_values_perm _ _ _ D) as (data & G & P).
  exists d, data. unfold AppManager.onProcessEneded. rewrite D.
  repeat split; [assumption | now apply del_keys_perm |].
  unfold AppManager.usedPorts. simpl.
  change (AppManager.port data :: map AppManager.port (Dict.values d))
    with (map AppManager.port (data :: Dict.values d)).
  now apply Permutation_map.
Qed.

Lemma invariant_manager_event (base : Z) (s : System.state) :
  invariant base s ->
  exists s', System.step s System.ManagerHandlesEvent = Returns s' /\ invariant base s'.
Proof.
  intros [Ib Ik Ip Ig In_ Ikn Ih Ic]. destruct s as [m mon nq tq reg ntf].
  unfold pending in *. simpl in *.
  destruct tq as [|Id tq].
  - eexists. split; [reflexivity|]. now constructor.
  - assert (I : In Id (Dict.keys (AppManager.processes m))).
    { apply Ikn. rewrite !in_app_iff. simpl. tauto. }
    destruct (onProcessEneded_known m Id Ik I) as (d & data & E & G & Pk & Pp).
    rewrite E. eexists. split; [reflexivity|].
    rewrite app_assoc in In_. apply NoDup_remove in In_.
    rewrite <- app_assoc in In_. destruct In_ as [N F].
    pose proof (Permutation_NoDup Pk Ik) as Nk. inversion Nk as [|? ? Fk Nk']; subst.
    pose proof (Permutation_NoDup Pp Ip) as Np. inversion Np as [|? ? Fp Np']; subst.
    constructor; simpl; unfold pending; simpl; try assumption; try reflexivity.
    + intros q Q. apply Ig. eapply Permutation_in; [symmetry; exact Pp | now right].
    + intros Id' I'.
      assert (K : In Id' (Id :: Dict.keys d)).
      { eapply Permutation_in; [exact Pk|]. apply Ikn.
        rewrite !in_app_iff in *. simpl. tauto. }
      destruct K as [<-|K]; [contradiction | assumption].
Qed.

(** No event faults in a state that satisfies the invariant, and the state
    it leads to satisfies it again. *)
Lemma invariant_step (base : Z) (s : System.state) (e : System.event) :
  invariant base s ->
  exists s', System.step s e = Returns s' /\ invariant base s'.
Proof.
  destruct e.
  - apply invariant_launch.
  - apply invariant_monitor_event.
  - apply invariant_cycle.
  - apply invariant_manager_event.
Qed.

Lemma invariant_steps (base : Z) (es : list System.event) (s : System.state) :
  invariant base s ->
  exists s', System.steps s es = Returns s' /\ invariant base s'.
Proof.
  revert s. induction es as [|e es IH]; intros s I; simpl.
  - eauto.
  - destruct (invariant_step base s e I) as (s1 & -> & I1). now apply IH.
Qed.

Lemma reachable_invariant (base : Z) (s : System.state) :
  reachable base s -> invariant base s.
Proof.
  intros [es E].
  destruct (invariant_steps base es _ (invariant_init base)) as (s' & E' & I).
  congruence.
Qed.

Lemma steps_cons (s : System.state) (e : System.event) (es : list System.event) :
  System.steps s (e :: es)
  = match System.step s e with
    | Returns s1 => System.steps s1 es
    | stopped => stopped
    end.
Proof. reflexivity. Qed.

Lemma steps_app (s : System.state) (es1 es2 : list System.event) :
  System.steps s (es1 ++ es2)
  = match System.steps s es1 with
    | Returns s1 => System.steps s1 es2
    | stopped => stopped
    end.
Proof.
  revert s. induction es1 as [|e es1 IH]; intro s; simpl; [reflexivity|].
  destruct (System.step s e); auto.
Qed.

Lemma reachable_steps (base : Z) (s s' : System.state) (es : list System.event) :
  reachable base s -> System.steps s es = Returns s' -> reachable base s'.
Proof.
  intros [es0 E0] E. exists (es0 ++ es). now rewrite steps_app, E0.
Qed.

Section MoreDictFacts.
Context {V : Type}.
Implicit Types (d : Dict.t V) (k : IdType) (v : V).

Lemma get_app_new k v d : ~ In k (Dict.keys d) -> Dict.get k (d ++ [(k, v)]) = Some v.
Proof.
  induction d as [|[k' v'] d IH]; simpl; intro N.
  - now rewrite Id_eqb_refl.
  - destruct (Id_eqb k k') eqn:E.
    + apply Id_eqb_eq in E. subst. tauto.
    + apply IH. tauto.
Qed.

Lemma get_del_other k k' d d' :
  Dict.del k d = Some d' -> k' <> k -> Dict.get k' d' = Dict.get k' d.
Proof.
  revert d'. induction d as [|[k0 v0] d IH]; simpl; intros d' D N; [discriminate|].
  destruct (Id_eqb k k0) eqn:E.
  - apply Id_eqb_eq in E. subst k0. injection D as <-.
    apply Id_eqb_neq in N. now rewrite N.
  - destruct (Dict.del k d) as [d''|] eqn:D'; [|discriminate].
    injection D as <-. simpl. destruct (Id_eqb k' k0); [reflexivity | now apply IH].
Qed.

Lemma get_Some_keys k v d : Dict.get k d = Some v -> In k (Dict.keys d).
Proof.
  intro G. destruct (in_dec Id_eq_dec k (Dict.keys d)) as [I|N]; [assumption|].
  apply get_None_keys in N. congruence.
Qed.

Lemma get_Some_values k v d : Dict.get k d = Some v -> In v (Dict.values d).
Proof.
  intro G. apply get_Some_In in G. unfold Dict.values.
  change v with (snd (k, v)). now apply in_map.
Qed.
End MoreDictFacts.

(** The handler on the oldest queued notification, in a reachable state. *)
Lemma manager_event_spec (base : Z) (s : System.state) (Id : IdType) (queue : list IdType) :
  invariant base s ->
  System.processTerminated s = Id :: queue ->
  exists d data,
    System.step s System.ManagerHandlesEvent
    = Returns (System.Sys (AppManager.with_processes (System.manager s) d)
                 (System.monitor s) (System.newProcess s) queue
                 (System.registered s) (System.notified s))
    /\ Dict.del Id (AppManager.processes (System.manager s)) = Some d
    /\ Dict.get Id (AppManager.processes (System.manager s)) = Some data
    /\ Permutation (Dict.keys (AppManager.processes (System.manager s))) (Id :: Dict.keys d)
    /\ Permutation (AppManager.usedPorts (System.manager s))
         (AppManager.port data :: map AppManager.port (Dict.values d)).
Proof.
  intros [Ib Ik Ip Ig In_ Ikn Ih Ic] Q. destruct s as [m mon nq tq reg ntf].
  unfold pending in *. simpl in *. subst tq.
  assert (I : In Id (Dict.keys (AppManager.processes m))).
  { apply Ikn. rewrite !in_app_iff. simpl. tauto. }
  destruct (del_present _ _ I) as [d D].
  destruct (del_values_perm _ _ _ D) as (data & G & P).
  exists d, data. unfold AppManager.onProcessEneded. rewrite D.
  repeat split; try assumption.
  - now apply del_keys_perm.
  - unfold AppManager.usedPorts.
    change (AppManager.port data :: map AppManager.port (Dict.values d))
      with (map AppManager.port (data :: Dict.values d)).
    now apply Permutation_map.
Qed.

(** Handling the whole queue takes every queued id, and its port, out of
    the table, and puts nothing in. *)
Lemma handleAll_spec (base : Z) (n : nat) (s : System.state) :
  invariant base s ->
  List.length (System.processTerminated s) = n ->
  exists s2,
    System.steps s (repeat System.ManagerHandlesEvent n) = Returns s2
    /\ invariant base s2
    /\ incl (Dict.keys (AppManager.processes (System.manager s2)))
            (Dict.keys (AppManager.processes (System.manager s)))
    /\ incl (AppManager.usedPorts (System.manager s2)) (AppManager.usedPorts (System.manager s))
    /\ forall X data,
         In X (System.processTerminated s) ->
         Dict.get X (AppManager.processes (System.manager s)) = Some data ->
         ~ In X (Dict.keys (AppManager.processes (System.manager s2)))
         /\ ~ In (AppManager.port data) (AppManager.usedPorts (System.manager s2)).
Proof.
  revert s. induction n as [|n IH]; intros s I L.
  - exists s. simpl. split; [reflexivity|]. split; [assumption|].
    split; [apply incl_refl|]. split; [apply incl_refl|].
    intros X data IX. destruct (System.processTerminated s); [contradiction | discriminate].
  - destruct (System.processTerminated s) as [|Id queue] eqn:Q; [discriminate|].
    destruct (manager_event_spec base s Id queue I Q) as (d & data0 & E & D & G & Pk & Pp).
    destruct (invariant_manager_event base s I) as (s1 & E1 & I1).
    rewrite E in E1. injection E1 as E1.
    destruct (IH s1 I1) as (s2 & E2 & I2 & IncK & IncP & A).
    { subst s1. simpl. simpl in L. lia. }
    exists s2. simpl repeat. rewrite steps_cons, E, E1.
    split; [assumption|]. split; [assumption|].
    assert (IncK1 : incl (Dict.keys (AppManager.processes (System.manager s1)))
                         (Dict.keys (AppManager.processes (System.manager s)))).
    { subst s1. simpl. intros q Hq. eapply Permutation_in; [symmetry; exact Pk|].
      now right. }
    assert (IncP1 : incl (AppManager.usedPorts (System.manager s1))
                         (AppManager.usedPorts (System.manager s))).
    { subst s1. simpl. intros q Hq. eapply Permutation_in; [symmetry; exact Pp|].
      now right. }
    split; [eapply incl_tran; eassumption|].
    split; [eapply incl_tran; eassumption|].
    pose proof (Permutation_NoDup Pk (inv_keys _ _ I)) as Nk.
    inversion Nk as [|? ? Fk Nk'].
    pose proof (Permutation_NoDup Pp (inv_ports _ _ I)) as Np.
    inversion Np as [|? ? Fp Np'].
    intros X data [<-|IX] GX.
    + rewrite G in GX. injection GX as <-.
      split; intro C.
      * apply IncK in C. subst s1. simpl in C. contradiction.
      * apply IncP in C. subst s1. simpl in C. contradiction.
    + destruct (Id_eq_dec X Id) as [->|NX].
      * exfalso. pose proof (inv_pending _ _ I) as ND. unfold pending in ND.
        rewrite Q in ND. rewrite app_assoc in ND. apply NoDup_remove_2 in ND.
        apply ND. rewrite !in_app_iff. tauto.
      * apply A.
        -- subst s1. exact IX.
        -- subst s1. simpl. rewrite (get_del_other _ _ _ _ D NX). exact GX.
Qed.

(** * The claims *)

(** ** Ports *)

Lemma In_get {V : Type} (k : IdType) (v : V) (d : Dict.t V) :
  NoDup (Dict.keys d) -> In (k, v) d -> Dict.get k d = Some v.
Proof.
  induction d as [|[k' v'] d IH]; simpl; intros ND I; [contradiction|].
  inversion ND as [|? ? F ND']; subst.
  destruct I as [[= -> ->]|I].
  - now rewrite Id_eqb_refl.
  - destruct (Id_eqb k k') eqn:E; [|now apply IH].
    apply Id_eqb_eq in E. subst k'. exfalso. apply F.
    change k with (fst (k, v)). now apply in_map.
Qed.

(** The list the port search looks at has the ports of the records of the
    table, and nothing else. *)
Lemma usedPorts_held (self : AppManager.state) (q : Z) :
  NoDup (Dict.keys (AppManager.processes self)) ->
  In q (AppManager.usedPorts self) <-> portHeld (AppManager.processes self) q.
Proof.
  intro ND. unfold AppManager.usedPorts, Dict.values, portHeld. rewrite map_map. split.
  - intro I. apply in_map_iff in I. destruct I as ([Id data] & <- & I).
    exists Id, data. split; [now apply In_get | reflexivity].
  - intros (Id & data & G & <-). apply get_Some_In in G.
    apply in_map_iff. now exists (Id, data).
Qed.

(** What the search finds, told of the records. *)
Lemma lowestFree_records (self : AppManager.state) (p : Z) :
  NoDup (Dict.keys (AppManager.processes self)) ->
  lowestFree (AppManager.initialPort self) (AppManager.usedPorts self) p ->
  AppManager.initialPort self <= p
  /\ ~ portHeld (AppManager.processes self) p
  /\ forall q, AppManager.initialPort self <= q < p ->
               portHeld (AppManager.processes self) q.
Proof.
  intros ND (L & N & A). split; [assumption|]. split.
  - intro H. apply N. now apply usedPorts_held.
  - intros q Q. apply usedPorts_held; [assumption | now apply A].
Qed.

Lemma NoDup_map_eq {A B : Type} (f : A -> B) (l : list A) (x y : A) :
  NoDup (map f l) -> In x l -> In y l -> f x = f y -> x = y.
Proof.
  induction l as [|a l IH]; simpl; intros ND Ix Iy E; [contradiction|].
  inversion ND as [|? ? F ND']; subst.
  destruct Ix as [->|Ix], Iy as [->|Iy].
  - reflexivity.
  - exfalso. apply F. rewrite E. now apply in_map.
  - exfalso. apply F. rewrite <- E. now apply in_map.
  - now apply IH.
Qed.

Lemma usedPorts_distinct (m : AppManager.state) :
  NoDup (AppManager.usedPorts m) -> portsDistinct (AppManager.processes m).
Proof.
  unfold AppManager.usedPorts, Dict.values. rewrite map_map.
  intros ND Id1 Id2 data1 data2 G1 G2 E.
  apply get_Some_In in G1, G2.
  assert (P : (Id1, data1) = (Id2, data2)).
  { apply (NoDup_map_eq (fun e => AppManager.port (snd e)) _ _ _ ND G1 G2). exact E. }
  now injection P.
Qed.

(** C3.  In every state the manager can reach (after any launches and any
    terminations), [launchApp] with an id that is not in the process table
    returns [True] and appends one record for the id.  The port of that
    record is the lowest integer from [initialPort] on that no record of the
    table has: it is at least [initialPort], no record has it, and every
    integer from [initialPort] up to it is the port of some record.  After
    the launch the records of the table have pairwise different ports. *)
Theorem launchApp_lowest_free_port (base : Z) (s : System.state) (Id : IdType)
    (module func : string) (args : list string) :
  reachable base s ->
  Dict.mem Id (AppManager.processes (System.manager s)) = false ->
  exists m data acts,
    AppManager.launchApp (System.manager s) Id module func args = (m, Returns true, acts)
    /\ AppManager.processes m = AppManager.processes (System.manager s) ++ [(Id, data)]
    /\ base <= AppManager.port data
    /\ (forall Id' data',
          Dict.get Id' (AppManager.processes (System.manager s)) = Some data' ->
          AppManager.port data' <> AppManager.port data)
    /\ (forall q, base <= q < AppManager.port data ->
                  exists Id' data',
                    Dict.get Id' (AppManager.processes (System.manager s)) = Some data'
                    /\ AppManager.port data' = q)
    /\ (forall Id1 Id2 data1 data2,
          Dict.get Id1 (AppManager.processes m) = Some data1 ->
          Dict.get Id2 (AppManager.processes m) = Some data2 ->
          AppManager.port data1 = AppManager.port data2 -> Id1 = Id2).
Proof.
  intros R M. apply reachable_invariant in R. destruct R as [Ib Ik Ip _ _ _ _ _].
  destruct (launchApp_new (System.manager s) Id module func args M) as (p & L & E).
  pose proof (lowestFree_records _ _ Ik L) as (Lb & Ln & La).
  rewrite Ib in Lb, La. rewrite E.
  eexists _, _, _. split; [reflexivity|]. simpl. split; [reflexivity|].
  split; [exact Lb|]. split; [|split; [exact La|]].
  - intros Id' data' G C. apply Ln. now exists Id', data'.
  - apply (usedPorts_distinct
             (AppManager.Manager
                (AppManager.processes (System.manager s)
                 ++ [(Id, AppManager.Worker (Process (AppManager.created (System.manager s)))
                             p (Sock (S (AppManager.created (System.manager s)))))])
                (AppManager.initialPort (System.manager s))
                (AppManager.procmon (System.manager s))
                (AppManager.procmonThread (System.manager s))
                (S (S (AppManager.created (System.manager s)))))).
    rewrite usedPorts_app; [|exact (System.manager s)].
    apply NoDup_snoc; [exact Ip | apply L].
Qed.

Lemma launchApp_lowest_free_port_witness :
  reachable 12345 (Example.stateAfter Example.oneStopped)
  /\ Dict.mem (IdStr "c")
       (AppManager.processes (System.manager (Example.stateAfter Example.oneStopped))) = false
  /\ exists m data acts,
       AppManager.launchApp (System.manager (Example.stateAfter Example.oneStopped))
         (IdStr "c") "plottr.apps.autoplot" "autoplotDDH5" [] = (m, Returns true, acts)
       /\ AppManager.processes m
          = AppManager.processes (System.manager (Example.stateAfter Example.oneStopped))
            ++ [(IdStr "c", data)]
       /\ 12345 <= AppManager.port data
       /\ (forall Id' data',
             Dict.get Id'
               (AppManager.processes (System.manager (Example.stateAfter Example.oneStopped)))
             = Some data' ->
             AppManager.port data' <> AppManager.port data)
       /\ (forall q, 12345 <= q < AppManager.port data ->
                     exists Id' data',
                       Dict.get Id'
                         (AppManager.processes
                            (System.manager (Example.stateAfter Example.oneStopped)))
                       = Some data'
                       /\ AppManager.port data' = q)
       /\ (forall Id1 Id2 data1 data2,
             Dict.get Id1 (AppManager.processes m) = Some data1 ->
             Dict.get Id2 (AppManager.processes m) = Some data2 ->
             AppManager.port data1 = AppManager.port data2 -> Id1 = Id2).
Proof.
  split; [exists Example.oneStopped; reflexivity|].
  split; [reflexivity|].
  apply (launchApp_lowest_free_port 12345 (Example.stateAfter Example.oneStopped)).
  - exists Example.oneStopped. reflexivity.
  - reflexivity.
Defined.

(** C4.  When the monitor, in a cycle, finds the process of a tracked id [X]
    in state 0, it signals [X]; once the manager has handled the queued
    signals, [X] is no longer a key of the process table and no record of
    the table has the port the record of [X] had.  The next [launchApp] of
    a new id therefore gets a port no higher than that one, and exactly that
    one when every lower integer from [initialPort] on is the port of some
    record. *)
Theorem terminated_app_frees_port (base : Z) (s : System.state) (X : IdType)
    (p : QProcess) (st : ProcessState) :
  reachable base s ->
  Dict.get X (ProcessMonitor.processes (System.monitor s)) = Some p ->
  st p = 0 ->
  exists data s1 s2,
    Dict.get X (AppManager.processes (System.manager s)) = Some data
    /\ System.step s (System.MonitorCycle st) = Returns s1
    /\ In X (System.processTerminated s1)
    /\ handleAll s1 = Returns s2
    /\ Dict.mem X (AppManager.processes (System.manager s2)) = false
    /\ (forall Id' data',
          Dict.get Id' (AppManager.processes (System.manager s2)) = Some data' ->
          AppManager.port data' <> AppManager.port data)
    /\ forall Id module func args,
         Dict.mem Id (AppManager.processes (System.manager s2)) = false ->
         exists m data' acts,
           AppManager.launchApp (System.manager s2) Id module func args
           = (m, Returns true, acts)
           /\ Dict.get Id (AppManager.processes m) = Some data'
           /\ AppManager.port data' <= AppManager.port data
           /\ ((forall q, base <= q < AppManager.port data ->
                          exists Id' data'',
                            Dict.get Id' (AppManager.processes (System.manager s2))
                            = Some data''
                            /\ AppManager.port data'' = q) ->
               AppManager.port data' = AppManager.port data).
Proof.
  intros R G Z. apply reachable_invariant in R as I.
  pose proof (inv_checking _ _ I) as C.
  (* the record of X in the table *)
  assert (K : In X (Dict.keys (AppManager.processes (System.manager s)))).
  { apply (inv_pending_known _ _ I). unfold pending. apply in_or_app. left.
    eapply get_Some_keys; eassumption. }
  destruct (Dict.get X (AppManager.processes (System.manager s))) as [data|] eqn:GX;
    [|apply get_None_keys in GX; contradiction].
  (* the cycle *)
  destruct (invariant_cycle base s st I) as (s1 & E1 & I1).
  pose proof (inv_pending _ _ I) as ND. unfold pending in ND.
  destruct (cycle_spec st (System.monitor s) (NoDup_app_l _ _ ND))
    as (d & emitted & Ec & _ & A).
  assert (Q1 : System.processTerminated s1 = System.processTerminated s ++ emitted).
  { simpl in E1. rewrite Ec in E1. injection E1 as <-. reflexivity. }
  assert (M1 : System.manager s1 = System.manager s).
  { simpl in E1. rewrite Ec in E1. injection E1 as <-. reflexivity. }
  assert (IX : In X (System.processTerminated s1)).
  { rewrite Q1. apply in_or_app. right.
    eapply (A C); [eapply get_Some_In; exact G | exact Z]. }
  (* the handler *)
  destruct (handleAll_spec base _ s1 I1 eq_refl) as (s2 & E2 & I2 & _ & _ & H).
  rewrite <- M1 in GX. destruct (H X data IX GX) as [NK NP].
  exists data, s1, s2. rewrite M1 in GX.
  pose proof (inv_keys _ _ I2) as K2.
  assert (Free : forall Id' data',
             Dict.get Id' (AppManager.processes (System.manager s2)) = Some data' ->
             AppManager.port data' <> AppManager.port data).
  { intros Id' data' G' E. apply NP. apply usedPorts_held; [assumption|].
    now exists Id', data'. }
  repeat (split; [first [reflexivity | assumption | now apply mem_false_keys]|]).
  (* the next launch *)
  intros Id module func args M.
  destruct (launchApp_new (System.manager s2) Id module func args M) as (p' & L & E).
  rewrite (inv_base _ _ I2) in L. rewrite E.
  eexists _, _, _. split; [reflexivity|]. simpl.
  split; [apply get_app_new; now apply mem_false_keys|].
  assert (B : base <= AppManager.port data).
  { apply (inv_ports_ge _ _ I). unfold AppManager.usedPorts. apply in_map.
    eapply get_Some_values; eassumption. }
  destruct L as (Lb & Ln & La). split.
  - destruct (Z_le_gt_dec p' (AppManager.port data)) as [?|Gt]; [assumption|].
    exfalso. apply NP, La. lia.
  - intro Used. apply (lowestFree_unique base (AppManager.usedPorts (System.manager s2)));
      repeat split; try assumption.
    intros q Q. apply usedPorts_held; [assumption|]. now apply Used.
Qed.

Lemma terminated_app_frees_port_witness :
  exists data s1 s2,
    Dict.get (IdInt 1)
      (AppManager.processes (System.manager (Example.stateAfter Example.launchTwo)))
    = Some data
    /\ System.step (Example.stateAfter Example.launchTwo)
         (System.MonitorCycle (Example.stopped 0)) = Returns s1
    /\ In (IdInt 1) (System.processTerminated s1)
    /\ handleAll s1 = Returns s2
    /\ Dict.mem (IdInt 1) (AppManager.processes (System.manager s2)) = false
    /\ (forall Id' data',
          Dict.get Id' (AppManager.processes (System.manager s2)) = Some data' ->
          AppManager.port data' <> AppManager.port data)
    /\ forall Id module func args,
         Dict.mem Id (AppManager.processes (System.manager s2)) = false ->
         exists m data' acts,
           AppManager.launchApp (System.manager s2) Id module func args
           = (m, Returns true, acts)
           /\ Dict.get Id (AppManager.processes m) = Some data'
           /\ AppManager.port data' <= AppManager.port data
           /\ ((forall q, 12345 <= q < AppManager.port data ->
                          exists Id' data'',
                            Dict.get Id' (AppManager.processes (System.manager s2))
                            = Some data''
                            /\ AppManager.port data'' = q) ->
               AppManager.port data' = AppManager.port data).
Proof.
  apply (terminated_app_frees_port 12345 (Example.stateAfter Example.launchTwo)
           (IdInt 1) (Example.proc 0) (Example.stopped 0)).
  - exists Example.launchTwo. reflexivity.
  - reflexivity.
  - reflexivity.
Defined.

(** ** The server's loop *)

(** C8.  A turn of the server's loop that receives a message equal to the
    string [ping] sends the string [pong] and nothing else: it emits no
    [messageReceived], and it does not wait for a reply (the turn ends
    whatever the fuel, even none, and whatever arrives meanwhile). *)
Theorem ping_answered_by_server (fuel : nat) (self : AppServer.state) (message : pyval)
    (waits : list (list AppServer.slotCall)) (interrupted : bool)
    (idle : list AppServer.slotCall) :
  eq_str message "ping" = true ->
  AppServer.turn fuel self (Some message) waits interrupted idle
  = ([AppServer.SendPyobj (PyStr "pong")],
     Some (AppServer.qtsleep
             (if interrupted then AppServer.Server (AppServer.reply self) false else self)
             idle)).
Proof. intro E. unfold AppServer.turn. now rewrite E. Qed.

Lemma ping_answered_by_server_witness :
  eq_str (PyStr "ping") "ping" = true
  /\ AppServer.turn 0 AppServer.init (Some (PyStr "ping"))
       [[AppServer.CallLoadReply (PyBool true)]] false []
     = ([AppServer.SendPyobj (PyStr "pong")], Some AppServer.init).
Proof.
  split; [reflexivity|].
  apply (ping_answered_by_server 0 AppServer.init (PyStr "ping")
           [[AppServer.CallLoadReply (PyBool true)]] false []).
  reflexivity.
Defined.

(** Only the string [ping] compares equal to ['ping']. *)
Lemma eq_str_iff (x : pyval) (s : string) : eq_str x s = true <-> x = PyStr s.
Proof.
  destruct x; simpl; split; try discriminate.
  - intro E. apply String.eqb_eq in E. now subst.
  - intros [= ->]. apply String.eqb_refl.
Qed.

(** A sleep during which only [None] is loaded leaves the slot empty. *)
Lemma qtsleep_None (calls : list AppServer.slotCall) (self : AppServer.state) :
  is_None (AppServer.reply self) = true ->
  forallb (fun c => match c with
                    | AppServer.CallQuit => true
                    | AppServer.CallLoadReply r => is_None r
                    end) calls = true ->
  is_None (AppServer.reply (AppServer.qtsleep self calls)) = true.
Proof.
  revert self. unfold AppServer.qtsleep.
  induction calls as [|c calls IH]; simpl; intros self N A; [assumption|].
  apply andb_prop in A. destruct A as [Ac A].
  apply IH; [|assumption]. destruct c; simpl; assumption.
Qed.

(** The wait does not end while the slot holds [None], however long it is
    followed. *)
Lemma awaitReply_None (fuel : nat) (self : AppServer.state)
    (waits : list (list AppServer.slotCall)) :
  is_None (AppServer.reply self) = true ->
  repliesNone waits = true ->
  AppServer.awaitReply fuel self waits = None.
Proof.
  revert self waits. induction fuel as [|fuel IH]; intros self waits N A; simpl;
    rewrite N; [reflexivity|].
  apply IH.
  - apply qtsleep_None; [assumption|].
    destruct waits as [|calls waits]; [reflexivity|].
    simpl in A. now apply andb_prop in A.
  - destruct waits as [|calls waits]; [reflexivity|].
    simpl in A. now apply andb_prop in A.
Qed.

(** A turn that is still waiting keeps the whole loop waiting: the turns
    after it are not begun. *)
Lemma loop_waits (fuel : nat) (self : AppServer.state) (t : AppServer.turnInput)
    (turns : list AppServer.turnInput) (acts : list AppServer.action) :
  AppServer.running self = true ->
  AppServer.turn fuel self (AppServer.evts t) (AppServer.waits t)
    (AppServer.interrupted t) (AppServer.idle t) = (acts, None) ->
  AppServer.loop fuel self (t :: turns) = (acts, None).
Proof. intros R T. simpl. now rewrite R, T. Qed.

Lemma duringSleep_None (marks : list Worker.arrival) (underway : option pyval) :
  (underway = None \/ underway = Some PyNone) ->
  (fst (Worker.duringSleep underway marks) = None
   \/ fst (Worker.duringSleep underway marks) = Some PyNone)
  /\ forallb (fun c => match c with
                       | AppServer.CallQuit => true
                       | AppServer.CallLoadReply r => is_None r
                       end) (snd (Worker.duringSleep underway marks)) = true.
Proof.
  revert underway. induction marks as [|[|] marks IH]; simpl; intros underway U.
  - tauto.
  - specialize (IH underway U). destruct (Worker.duringSleep underway marks). simpl in *. tauto.
  - destruct U as [->| ->].
    + apply IH. now left.
    + specialize (IH None (or_introl eq_refl)).
      destruct (Worker.duringSleep None marks). simpl in *. tauto.
Qed.

Lemma arrivals_None (sched : list (list Worker.arrival)) (underway : option pyval) :
  (underway = None \/ underway = Some PyNone) ->
  repliesNone (Worker.arrivals underway sched) = true.
Proof.
  revert underway. induction sched as [|marks sched IH]; simpl; intros underway U;
    [reflexivity|].
  destruct (duringSleep_None marks underway U) as [U' A].
  destruct (Worker.duringSleep underway marks) as [u calls]. simpl in *.
  rewrite A. simpl. now apply IH.
Qed.

(** C9.  When [onMessageReceived] emits [None] as the reply to a request,
    the server, whose slot was empty when the request came, never answers
    it: however long its turn is followed, whenever the reply and whatever
    quits arrive, the turn has emitted [messageReceived], has sent nothing
    and is still in the wait for the reply. *)
Theorem None_reply_is_never_sent {FC : Type} `{FlowchartOps FC} (fc : FC)
    (self : AppServer.state) (targetName targetProperty : string) (value : pyval) :
  snd (App.onMessageReceived fc targetName targetProperty value) = Returns PyNone ->
  is_None (AppServer.reply self) = true ->
  forall fuel sched interrupted idle,
    snd (Worker.serve fuel fc self targetName targetProperty value sched interrupted idle)
    = ([AppServer.EmitMessageReceived
          (AppManager.request targetName targetProperty value)], None).
Proof.
  intros O N fuel sched interrupted idle. unfold Worker.serve.
  destruct (App.onMessageReceived fc targetName targetProperty value) as [fc' o].
  simpl in O. subst o. simpl.
  unfold AppServer.turn. simpl.
  rewrite awaitReply_None; [reflexivity | assumption |].
  apply arrivals_None. now right.
Qed.

Lemma None_reply_is_never_sent_witness :
  snd (App.onMessageReceived ([] : Example.toy) "" "setInput"
         (PyDict [(PyStr "dataIn", PyInt 5)])) = Returns PyNone
  /\ is_None (AppServer.reply AppServer.init) = true
  /\ snd (Worker.serve 1000 ([] : Example.toy) AppServer.init "" "setInput"
            (PyDict [(PyStr "dataIn", PyInt 5)])
            [[]; [Worker.ReplyArrives]; [Worker.QuitArrives]] true [])
     = ([AppServer.EmitMessageReceived
           (AppManager.request "" "setInput" (PyDict [(PyStr "dataIn", PyInt 5)]))],
        None).
Proof.
  split; [reflexivity|]. split; [reflexivity|].
  apply (None_reply_is_never_sent ([] : Example.toy) AppServer.init "" "setInput"
           (PyDict [(PyStr "dataIn", PyInt 5)])); reflexivity.
Defined.

(** A request whose reply is not [None] is answered once the reply has
    arrived. *)
Example serve_answers :
  snd (Worker.serve 5 ([("dataIn"%string, PyInt 5)] : Example.toy) AppServer.init
         "fc" "getOutput" PyNone [[]; [Worker.ReplyArrives]] false [])
  = ([AppServer.EmitMessageReceived (AppManager.request "fc" "getOutput" PyNone);
      AppServer.SendPyobj (PyDict [(PyStr "dataIn", PyInt 5)])],
     Some AppServer.init).
Proof. reflexivity. Qed.

(** ** The dispatcher *)

(** On a node the slot catches what [setattr] raises and what the lookup of
    a missing node raises: no exception leaves it. *)
Lemma onMessageReceived_node_catches {FC : Type} `{FlowchartOps FC} (fc : FC)
    (targetName targetProperty : string) (value : pyval) (e : exception) :
  App.isFlowchartName targetName = false ->
  snd (App.onMessageReceived fc targetName targetProperty value) <> Raises e.
Proof.
  intro N. unfold App.onMessageReceived. rewrite N.
  destruct (hasNode fc targetName); [|discriminate].
  destruct (setNodeAttr fc targetName targetProperty value) as [fc' [[]|e'|]];
    discriminate.
Qed.

(** A property of the flowchart other than [setInput] and [getOutput] is
    answered with a [ValueError] as the reply. *)
Lemma onMessageReceived_unknown_property {FC : Type} `{FlowchartOps FC} (fc : FC)
    (targetName targetProperty : string) (value : pyval) :
  App.isFlowchartName targetName = true ->
  String.eqb targetProperty "setInput" = false ->
  String.eqb targetProperty "getOutput" = false ->
  App.onMessageReceived fc targetName targetProperty value
  = (fc, Returns (PyException (App.unknownProperty targetProperty))).
Proof. intros N S G. unfold App.onMessageReceived. now rewrite N, S, G. Qed.

Lemma setInput_escapes_lemma {FC : Type} `{FlowchartOps FC} (fc : FC) :
  App.onMessageReceived fc "" "setInput" (PyInt 5)
  = (fc, Raises (Exc TypeError "argument after ** must be a mapping")).
Proof. reflexivity. Qed.

(** C1.  The claim fails on the flowchart branch: [setInput] with a value
    that is not a mapping, here the integer 5, raises [TypeError] when the
    value is unpacked into keyword arguments; the call is in no [try], so the
    exception leaves [onMessageReceived] and [replyReady] is not emitted. *)
Theorem setInput_exception_escapes {FC : Type} `{FlowchartOps FC} (fc : FC) :
  App.onMessageReceived fc "" "setInput" (PyInt 5)
  = (fc, Raises (Exc TypeError "argument after ** must be a mapping")).
Proof. apply setInput_escapes_lemma. Qed.

(** What follows for the server: it waits for a reply that does not come. *)
Lemma escaped_exception_no_reply {FC : Type} `{FlowchartOps FC} (fc : FC)
    (self : AppServer.state) (fuel : nat) (sched : list (list Worker.arrival))
    (interrupted : bool) (idle : list AppServer.slotCall) :
  is_None (AppServer.reply self) = true ->
  snd (Worker.serve fuel fc self "" "setInput" (PyInt 5) sched interrupted idle)
  = ([AppServer.EmitMessageReceived (AppManager.request "" "setInput" (PyInt 5))], None).
Proof.
  intro N. unfold Worker.serve. rewrite setInput_escapes_lemma. simpl.
  unfold AppServer.turn. simpl.
  rewrite awaitReply_None; [reflexivity | assumption |].
  apply arrivals_None. now left.
Qed.

(** ** The manager's operations *)

(** C7.  In a reachable state, [launchApp] with an id that is not in the
    table returns [True]; the same call made again returns [False], logs a
    warning and leaves the manager as it was, with exactly one record for
    the id.  More generally, in every reachable state that has the id in
    its table the call returns [False], changes nothing (table, ports and
    records included) and there is exactly one record for the id. *)
Theorem launchApp_twice (base : Z) (s : System.state) (Id : IdType)
    (module func : string) (args : list string)
    (module' func' : string) (args' : list string) :
  reachable base s ->
  Dict.mem Id (AppManager.processes (System.manager s)) = false ->
  (exists m acts,
     AppManager.launchApp (System.manager s) Id module func args = (m, Returns true, acts)
     /\ AppManager.launchApp m Id module' func' args'
        = (m, Returns false, [LogWarning (IdAlreadyExists Id)])
     /\ count_occ Id_eq_dec (Dict.keys (AppManager.processes m)) Id = 1%nat)
  /\ forall s',
       reachable base s' ->
       Dict.mem Id (AppManager.processes (System.manager s')) = true ->
       AppManager.launchApp (System.manager s') Id module' func' args'
       = (System.manager s', Returns false, [LogWarning (IdAlreadyExists Id)])
       /\ count_occ Id_eq_dec (Dict.keys (AppManager.processes (System.manager s'))) Id
          = 1%nat.
Proof.
  intros R M. split.
  - destruct (launchApp_new (System.manager s) Id module func args M) as (p & L & E).
    rewrite E. eexists _, _. split; [reflexivity|].
    apply mem_false_keys in M. split.
    + apply launchApp_known. simpl. apply mem_keys. rewrite keys_app.
      apply in_or_app. right. now left.
    + simpl. rewrite keys_app, count_occ_app. simpl.
      destruct (Id_eq_dec Id Id) as [_|N]; [|contradiction].
      apply (count_occ_not_In Id_eq_dec) in M. rewrite M. reflexivity.
  - intros s' R' M'. split; [now apply launchApp_known|].
    apply reachable_invariant in R'.
    apply NoDup_count_occ'; [apply (inv_keys _ _ R') | now apply mem_keys].
Qed.

Lemma launchApp_twice_witness :
  reachable 12345 (Example.stateAfter Example.launchTwo)
  /\ Dict.mem (IdStr "c")
       (AppManager.processes (System.manager (Example.stateAfter Example.launchTwo))) = false
  /\ exists m acts,
       AppManager.launchApp (System.manager (Example.stateAfter Example.launchTwo))
         (IdStr "c") "plottr.apps.autoplot" "autoplotDDH5" [] = (m, Returns true, acts)
       /\ AppManager.launchApp m (IdStr "c") "plottr.apps.monitr" "main" []
          = (m, Returns false, [LogWarning (IdAlreadyExists (IdStr "c"))])
       /\ count_occ Id_eq_dec (Dict.keys (AppManager.processes m)) (IdStr "c") = 1%nat.
Proof.
  split; [exists Example.launchTwo; reflexivity|].
  split; [reflexivity|].
  apply (launchApp_twice 12345 (Example.stateAfter Example.launchTwo) (IdStr "c")
           "plottr.apps.autoplot" "autoplotDDH5" [] "plottr.apps.monitr" "main" []).
  - exists Example.launchTwo. reflexivity.
  - reflexivity.
Defined.

(** C6.  [pingApp] on an id that is not in the table returns [False] and
    only logs a warning: nothing is sent.  On an id of the table it sends
    the string [ping] on the socket of the id's record and receives the
    reply; it returns [True] exactly when the reply is the string [pong].
    While no reply comes the call does not return. *)
Theorem pingApp_spec (peer : AppManager.Peer) (self : AppManager.state) (Id : IdType) :
  (Dict.mem Id (AppManager.processes self) = false ->
   AppManager.pingApp peer self Id = (Returns false, [LogWarning (IdNotPresent Id)]))
  /\ (forall data,
        Dict.get Id (AppManager.processes self) = Some data ->
        match peer (AppManager.socket data) (PyStr "ping") with
        | Some reply =>
            exists b,
              AppManager.pingApp peer self Id
              = (Returns b,
                 [SocketSend (AppManager.socket data) (PyStr "ping");
                  SocketRecv (AppManager.socket data) reply])
              /\ (b = true <-> reply = PyStr "pong")
        | None =>
            AppManager.pingApp peer self Id
            = (Blocks, [SocketSend (AppManager.socket data) (PyStr "ping")])
        end).
Proof.
  unfold AppManager.pingApp, Dict.mem. split.
  - destruct (Dict.get Id (AppManager.processes self)); [discriminate | reflexivity].
  - intros data ->.
    destruct (peer (AppManager.socket data) (PyStr "ping")) as [reply|]; [|reflexivity].
    exists (eq_str reply "pong"). split; [reflexivity | apply eq_str_iff].
Qed.

Lemma pingApp_spec_witness :
  Dict.mem (IdInt 7) (AppManager.processes Example.twoApps) = false
  /\ AppManager.pingApp Example.politePeer Example.twoApps (IdInt 7)
     = (Returns false, [LogWarning (IdNotPresent (IdInt 7))])
  /\ exists b,
       AppManager.pingApp Example.politePeer Example.twoApps (IdStr "b")
       = (Returns b, [SocketSend (Sock 3) (PyStr "ping");
                      SocketRecv (Sock 3) (PyStr "pong")])
       /\ (b = true <-> PyStr "pong" = PyStr "pong").
Proof.
  split; [reflexivity|]. split.
  - apply (proj1 (pingApp_spec Example.politePeer Example.twoApps (IdInt 7))).
    reflexivity.
  - apply (proj2 (pingApp_spec Example.politePeer Example.twoApps (IdStr "b"))
             (AppManager.Worker (Process 2) 12346 (Sock 3))).
    reflexivity.
Defined.

(** C5.  [message] raises (a [ValueError]) exactly when the id is not in the
    table.  On an id of the table it sends, on the socket of the id's
    record, the tuple of the target name, the target property and the
    value, in this order, and receives the response; it returns that
    response whatever it is.  When the response is an exception it is also
    logged and printed, and it is still what the call returns.  While no
    response comes the call does not return. *)
Theorem message_spec (peer : AppManager.Peer) (self : AppManager.state) (Id : IdType)
    (targetName targetProperty : string) (value : pyval) :
  ((exists e, fst (AppManager.message peer self Id targetName targetProperty value)
              = Raises e)
   <-> Dict.mem Id (AppManager.processes self) = false)
  /\ (forall data response,
        Dict.get Id (AppManager.processes self) = Some data ->
        peer (AppManager.socket data)
             (PyTuple [PyStr targetName; PyStr targetProperty; value]) = Some response ->
        exists logged,
          AppManager.message peer self Id targetName targetProperty value
          = (Returns response,
             [SocketSend (AppManager.socket data)
                (PyTuple [PyStr targetName; PyStr targetProperty; value]);
              SocketRecv (AppManager.socket data) response] ++ logged)
          /\ (forall e, response = PyException e ->
                        logged = [LogWarning (ExceptionInApp Id); PrintException e])
          /\ (is_Exception response = false -> logged = []))
  /\ (forall data,
        Dict.get Id (AppManager.processes self) = Some data ->
        peer (AppManager.socket data)
             (PyTuple [PyStr targetName; PyStr targetProperty; value]) = None ->
        AppManager.message peer self Id targetName targetProperty value
        = (Blocks, [SocketSend (AppManager.socket data)
                      (PyTuple [PyStr targetName; PyStr targetProperty; value])])).
Proof.
  unfold AppManager.message, AppManager.request, Dict.mem. split; [|split].
  - destruct (Dict.get Id (AppManager.processes self)) as [data|]; simpl.
    + split; [|discriminate]. intros [e E].
      destruct (peer _ _); discriminate.
    + split; [reflexivity | eauto].
  - intros data response -> ->.
    eexists. split; [reflexivity|]. split.
    + now intros e ->.
    + destruct response; simpl; try reflexivity. discriminate.
  - now intros data -> ->.
Qed.

Lemma message_spec_witness :
  Dict.mem (IdInt 7) (AppManager.processes Example.twoApps) = false
  /\ (exists e, fst (AppManager.message Example.failingPeer Example.twoApps (IdInt 7)
                       "nonode" "order" (PyInt 2)) = Raises e)
  /\ exists logged,
       AppManager.message Example.failingPeer Example.twoApps (IdInt 1)
         "nonode" "order" (PyInt 2)
       = (Returns (PyException (Exc KeyError "nonode")),
          [SocketSend (Sock 1) (PyTuple [PyStr "nonode"; PyStr "order"; PyInt 2]);
           SocketRecv (Sock 1) (PyException (Exc KeyError "nonode"))] ++ logged)
       /\ (forall e, PyException (Exc KeyError "nonode") = PyException e ->
                     logged = [LogWarning (ExceptionInApp (IdInt 1)); PrintException e])
       /\ (is_Exception (PyException (Exc KeyError "nonode")) = false -> logged = []).
Proof.
  split; [reflexivity|]. split.
  - apply (proj1 (message_spec Example.failingPeer Example.twoApps (IdInt 7)
                    "nonode" "order" (PyInt 2))).
    reflexivity.
  - apply (proj1 (proj2 (message_spec Example.failingPeer Example.twoApps (IdInt 1)
                           "nonode" "order" (PyInt 2)))
             (AppManager.Worker (Process 0) 12345 (Sock 1))
             (PyException (Exc KeyError "nonode")));
      reflexivity.
Defined.

(** ** Teardown *)

Lemma objects_app (d1 d2 : Dict.t AppManager.WorkerRecord) :
  objects (d1 ++ d2) = objects d1 ++ objects d2.
Proof. apply flat_map_app. Qed.

Lemma objectsOk_init (base : Z) : objectsOk (AppManager.init base).
Proof. split; simpl; [constructor | tauto]. Qed.

Lemma objectsOk_launchApp (m : AppManager.state) (Id : IdType) (module func : string)
    (args : list string) :
  objectsOk m -> objectsOk (fst (fst (AppManager.launchApp m Id module func args))).
Proof.
  intros [N B]. destruct (Dict.mem Id (AppManager.processes m)) eqn:M.
  - rewrite (launchApp_known _ _ _ _ _ M). now split.
  - destruct (launchApp_new m Id module func args M) as (p & _ & ->). simpl.
    unfold objectsOk. simpl. rewrite objects_app. simpl. split.
    + apply NoDup_app; [assumption | |].
      * repeat constructor; simpl; [lia | tauto].
      * intros n I [<-|[<-|[]]]; apply B in I; lia.
    + intros n I. apply in_app_or in I. destruct I as [I|[<-|[<-|[]]]]; [|lia|lia].
      apply B in I. lia.
Qed.

Lemma objectsOk_onProcessEneded (m : AppManager.state) (Id : IdType) :
  objectsOk m -> objectsOk (fst (AppManager.onProcessEneded m Id)).
Proof.
  intros [N B]. unfold AppManager.onProcessEneded.
  destruct (Dict.del Id (AppManager.processes m)) as [d|] eqn:D; [|now split].
  destruct (del_Some_split _ _ _ D) as (v & d1 & d2 & E & -> & _).
  rewrite E in N, B. rewrite objects_app in N, B. simpl in N, B.
  unfold objectsOk. simpl. rewrite objects_app. split.
  - apply NoDup_remove_1 in N. now apply NoDup_remove_1 in N.
  - intros n I. apply B. rewrite !in_app_iff in *. simpl. tauto.
Qed.

Lemma objectsOk_step (s s' : System.state) (e : System.event) :
  objectsOk (System.manager s) -> System.step s e = Returns s' ->
  objectsOk (System.manager s').
Proof.
  intros O E. destruct e; simpl in E.
  - pose proof (objectsOk_launchApp (System.manager s) Id module func args O) as O'.
    destruct (AppManager.launchApp (System.manager s) Id module func args) as [[m [b|e|]] acts];
      try discriminate.
    injection E as <-. exact O'.
  - destruct (System.newProcess s) as [|[Id p] q]; injection E as <-; exact O.
  - destruct (ProcessMonitor.cycle st (System.monitor s)) as [[mon emitted] [u|e|]];
      try discriminate.
    injection E as <-. exact O.
  - destruct (System.processTerminated s) as [|Id q]; [injection E as <-; exact O|].
    pose proof (objectsOk_onProcessEneded (System.manager s) Id O) as O'.
    destruct (AppManager.onProcessEneded (System.manager s) Id) as [m [u|e|]];
      try discriminate.
    injection E as <-. exact O'.
Qed.

Lemma reachable_objectsOk (base : Z) (s : System.state) :
  reachable base s -> objectsOk (System.manager s).
Proof.
  intros [es E]. revert E.
  generalize (objectsOk_init base).
  change (AppManager.init base) with (System.manager (System.init base)).
  generalize (System.init base). induction es as [|e es IH]; simpl; intros s0 O E.
  - now injection E as <-.
  - destruct (System.step s0 e) as [s1|?|] eqn:E1; try discriminate.
    eapply IH; [eapply objectsOk_step; eassumption | exact E].
Qed.

Lemma closeAll_cons (k : IdType) (v : AppManager.WorkerRecord)
    (d : Dict.t AppManager.WorkerRecord) :
  AppManager.closeAll ((k, v) :: d)
  = ProcessClose (AppManager.process v) :: SocketClose (AppManager.socket v) 1
    :: AppManager.closeAll d.
Proof. reflexivity. Qed.

(** An object no record holds is not closed. *)
Lemma closeAll_other (d : Dict.t AppManager.WorkerRecord) (n : nat) :
  ~ In n (objects d) ->
  processCloses (Process n) (AppManager.closeAll d) = 0%nat
  /\ socketCloses (Sock n) (AppManager.closeAll d) = 0%nat.
Proof.
  induction d as [|[k v] d IH]; intro N; [now split|].
  rewrite closeAll_cons. simpl in N.
  destruct IH as [IHp IHs]; [tauto|].
  unfold processCloses, socketCloses in *. simpl.
  destruct (Nat.eqb_spec (process_object (AppManager.process v)) n); [tauto|].
  destruct (Nat.eqb_spec (socket_object (AppManager.socket v)) n); [tauto|].
  now split.
Qed.

(** The loop of [closeEvent] closes the process and the socket of each
    record once. *)
Lemma closeAll_once (d : Dict.t AppManager.WorkerRecord) (Id : IdType)
    (data : AppManager.WorkerRecord) :
  NoDup (objects d) -> In (Id, data) d ->
  processCloses (AppManager.process data) (AppManager.closeAll d) = 1%nat
  /\ socketCloses (AppManager.socket data) (AppManager.closeAll d) = 1%nat.
Proof.
  induction d as [|[k v] d IH]; intros N I; [contradiction|].
  rewrite closeAll_cons. simpl in N.
  inversion N as [|? ? Fp N1]; subst. inversion N1 as [|? ? Fs N2]; subst.
  destruct I as [[= -> ->]|I].
  - destruct (closeAll_other d (process_object (AppManager.process data))) as [Cp _];
      [simpl in Fp; tauto|].
    destruct (closeAll_other d (socket_object (AppManager.socket data))) as [_ Cs];
      [assumption|].
    destruct data as [[p] q [sk]]. unfold processCloses, socketCloses in *. simpl in *.
    rewrite !Nat.eqb_refl. simpl. now rewrite Cp, Cs.
  - destruct (IH N2 I) as [IHp IHs].
    assert (Op : In (process_object (AppManager.process data)) (objects d)).
    { unfold objects. apply in_flat_map. exists (Id, data). split; [assumption | now left]. }
    assert (Os : In (socket_object (AppManager.socket data)) (objects d)).
    { unfold objects. apply in_flat_map. exists (Id, data).
      split; [assumption | right; now left]. }
    unfold processCloses, socketCloses in *. simpl.
    destruct (Nat.eqb_spec (process_object (AppManager.process v))
                           (process_object (AppManager.process data))) as [E|_].
    { exfalso. apply Fp. right. now rewrite E. }
    destruct (Nat.eqb_spec (socket_object (AppManager.socket v))
                           (socket_object (AppManager.socket data))) as [E|_].
    { exfalso. apply Fs. now rewrite E. }
    now split.
Qed.

Lemma processCloses_app (p : QProcess) (l1 l2 : list action) :
  processCloses p (l1 ++ l2) = (processCloses p l1 + processCloses p l2)%nat.
Proof. unfold processCloses. now rewrite filter_app, length_app. Qed.

Lemma socketCloses_app (s : Socket) (l1 l2 : list action) :
  socketCloses s (l1 ++ l2) = (socketCloses s l1 + socketCloses s l2)%nat.
Proof. unfold socketCloses. now rewrite filter_app, length_app. Qed.

Lemma contextDestroys_app (l1 l2 : list action) :
  contextDestroys (l1 ++ l2) = (contextDestroys l1 + contextDestroys l2)%nat.
Proof. unfold contextDestroys. now rewrite filter_app, length_app. Qed.

Lemma contextDestroys_closeAll (d : Dict.t AppManager.WorkerRecord) :
  contextDestroys (AppManager.closeAll d) = 0%nat.
Proof.
  induction d as [|[k v] d IH]; [reflexivity|]. rewrite closeAll_cons. exact IH.
Qed.

(** C2, as the code has it.  One [closeEvent] closes the process and the
    socket of every record of the table exactly once and destroys the
    context once.  A second [closeEvent] is not a no-op: the table still
    holds every record, so it closes each process and each socket once more
    and destroys the context once more; only the shutdown of the monitor and
    of its thread is not repeated.  The manager itself is left unchanged by
    the second call. *)
Theorem closeEvent_closes_each_once (base : Z) (s : System.state) :
  reachable base s ->
  (forall Id data,
     Dict.get Id (AppManager.processes (System.manager s)) = Some data ->
     processCloses (AppManager.process data) (snd (AppManager.closeEvent (System.manager s)))
     = 1%nat
     /\ socketCloses (AppManager.socket data) (snd (AppManager.closeEvent (System.manager s)))
        = 1%nat)
  /\ contextDestroys (snd (AppManager.closeEvent (System.manager s))) = 1%nat
  /\ snd (AppManager.closeEvent (fst (AppManager.closeEvent (System.manager s))))
     = AppManager.closeAll (AppManager.processes (System.manager s))
       ++ [ContextDestroy 1; SuperCloseEvent]
  /\ fst (AppManager.closeEvent (fst (AppManager.closeEvent (System.manager s))))
     = fst (AppManager.closeEvent (System.manager s)).
Proof.
  intro R. apply reachable_objectsOk in R. destruct R as [N _].
  set (m := System.manager s) in *.
  split; [|split; [|split; reflexivity]].
  - intros Id data G. apply get_Some_In in G.
    destruct (closeAll_once _ _ _ N G) as [Cp Cs].
    unfold AppManager.closeEvent. simpl.
    rewrite !processCloses_app, !socketCloses_app, Cp, Cs.
    destruct (AppManager.procmon m), (AppManager.procmonThread m); split; reflexivity.
  - unfold AppManager.closeEvent. simpl.
    rewrite !contextDestroys_app, contextDestroys_closeAll.
    destruct (AppManager.procmon m), (AppManager.procmonThread m); reflexivity.
Qed.

Lemma closeEvent_closes_each_once_witness :
  reachable 12345 (Example.stateAfter Example.launchTwo)
  /\ (forall Id data,
        Dict.get Id (AppManager.processes
                       (System.manager (Example.stateAfter Example.launchTwo))) = Some data ->
        processCloses (AppManager.process data)
          (snd (AppManager.closeEvent (System.manager (Example.stateAfter Example.launchTwo))))
        = 1%nat
        /\ socketCloses (AppManager.socket data)
             (snd (AppManager.closeEvent
                     (System.manager (Example.stateAfter Example.launchTwo))))
           = 1%nat)
  /\ contextDestroys
       (snd (AppManager.closeEvent (System.manager (Example.stateAfter Example.launchTwo))))
     = 1%nat
  /\ snd (AppManager.closeEvent
            (fst (AppManager.closeEvent
                    (System.manager (Example.stateAfter Example.launchTwo)))))
     = AppManager.closeAll
         (AppManager.processes (System.manager (Example.stateAfter Example.launchTwo)))
       ++ [ContextDestroy 1; SuperCloseEvent]
  /\ fst (AppManager.closeEvent
            (fst (AppManager.closeEvent
                    (System.manager (Example.stateAfter Example.launchTwo)))))
     = fst (AppManager.closeEvent (System.manager (Example.stateAfter Example.launchTwo))).
Proof.
  split; [exists Example.launchTwo; reflexivity|].
  apply (closeEvent_closes_each_once 12345 (Example.stateAfter Example.launchTwo)).
  exists Example.launchTwo. reflexivity.
Defined.

(** C2, as stated, fails: after one [closeEvent] of a manager with the apps
    [1] and [b], a second [closeEvent] does perform close and destroy
    calls. *)
Lemma second_closeEvent_not_noop :
  ~ (forall a,
       In a (snd (AppManager.closeEvent (fst (AppManager.closeEvent Example.twoApps)))) ->
       isClose a = false).
Proof.
  intro A. specialize (A (ProcessClose (Process 0)) (or_introl eq_refl)). discriminate.
Qed.

(** ** The monitor's notifications *)

(** C10.  No sequence of launches, deliveries of the two signals and
    monitor cycles faults: in particular the unguarded [del] of
    [onProcessEneded] never meets a missing key, and neither does the
    monitor's own.  In the state reached, each id has been signalled as
    terminated at most as often as it has been registered with the monitor;
    the signals that still wait for the handler are for pairwise different
    ids, each a key of the manager's table and no longer one of the
    monitor's dictionary (the monitor deleted it before it emitted). *)
Theorem one_notification_per_registration (base : Z) (es : list System.event) :
  exists s,
    System.steps (System.init base) es = Returns s
    /\ (forall Id, (count_occ Id_eq_dec (System.notified s) Id
                    <= count_occ Id_eq_dec (System.registered s) Id)%nat)
    /\ NoDup (System.processTerminated s)
    /\ forall Id,
         In Id (System.processTerminated s) ->
         Dict.mem Id (AppManager.processes (System.manager s)) = true
         /\ Dict.mem Id (ProcessMonitor.processes (System.monitor s)) = false.
Proof.
  destruct (invariant_steps base es _ (invariant_init base)) as (s & E & I).
  exists s. split; [assumption|].
  pose proof (inv_pending _ _ I) as ND. unfold pending in ND.
  split; [|split].
  - intro Id.
    rewrite <- (proj1 (Permutation_count_occ Id_eq_dec _ _) (inv_history _ _ I) Id).
    rewrite count_occ_app. lia.
  - apply NoDup_app_remove_l in ND. now apply NoDup_app_remove_l in ND.
  - intros Id Q. split.
    + apply mem_keys, (inv_pending_known _ _ I). unfold pending.
      rewrite !in_app_iff. tauto.
    + apply mem_false_keys. intro C.
      apply (NoDup_app_disjoint _ _ ND Id C). rewrite in_app_iff. tauto.
Qed.


(** * More of the module *)

(** ** launchApp on any manager *)

(** X1.  [launchApp] always returns, whatever the manager it is called on:
    the search for a port ends.  It returns [True] exactly when the id was
    not in the table; the table then has the id, and the port of the new
    record is the lowest integer from [initialPort] on that no record of
    the table had: it is at least [initialPort], no record had it, and
    every integer from [initialPort] up to it was the port of some record.
    A known id leaves the manager as it was. *)
Theorem launchApp_always_returns (self : AppManager.state) (Id : IdType)
    (module func : string) (args : list string) :
  NoDup (Dict.keys (AppManager.processes self)) ->
  exists m acts,
    AppManager.launchApp self Id module func args
    = (m, Returns (negb (Dict.mem Id (AppManager.processes self))), acts)
    /\ Dict.mem Id (AppManager.processes m) = true
    /\ (Dict.mem Id (AppManager.processes self) = true -> m = self)
    /\ (Dict.mem Id (AppManager.processes self) = false ->
        exists data,
          Dict.get Id (AppManager.processes m) = Some data
          /\ AppManager.initialPort self <= AppManager.port data
          /\ (forall Id' data',
                Dict.get Id' (AppManager.processes self) = Some data' ->
                AppManager.port data' <> AppManager.port data)
          /\ (forall q, AppManager.initialPort self <= q < AppManager.port data ->
                        exists Id' data',
                          Dict.get Id' (AppManager.processes self) = Some data'
                          /\ AppManager.port data' = q)).
Proof.
  intro ND. destruct (Dict.mem Id (AppManager.processes self)) eqn:M.
  - rewrite (launchApp_known _ _ _ _ _ M). eexists _, _.
    split; [reflexivity|]. split; [assumption|]. split; [reflexivity | discriminate].
  - destruct (launchApp_new self Id module func args M) as (p & L & ->).
    pose proof (lowestFree_records _ _ ND L) as (Lb & Ln & La).
    apply mem_false_keys in M.
    eexists _, _. split; [reflexivity|]. simpl.
    assert (G : Dict.get Id
                  (AppManager.processes self
                   ++ [(Id, AppManager.Worker (Process (AppManager.created self)) p
                              (Sock (S (AppManager.created self))))])
                = Some (AppManager.Worker (Process (AppManager.created self)) p
                          (Sock (S (AppManager.created self)))))
      by now apply get_app_new.
    split; [unfold Dict.mem; now rewrite G|].
    split; [discriminate|]. intros _. eexists. split; [exact G|]. simpl.
    split; [exact Lb|]. split; [|exact La].
    intros Id' data' G' C. apply Ln. now exists Id', data'.
Qed.

Lemma launchApp_always_returns_witness :
  exists m acts,
    AppManager.launchApp Example.twoApps (IdStr "c") "plottr.apps.autoplot" "autoplotDDH5" []
    = (m, Returns (negb (Dict.mem (IdStr "c") (AppManager.processes Example.twoApps))), acts)
    /\ Dict.mem (IdStr "c") (AppManager.processes m) = true
    /\ (Dict.mem (IdStr "c") (AppManager.processes Example.twoApps) = true ->
        m = Example.twoApps)
    /\ (Dict.mem (IdStr "c") (AppManager.processes Example.twoApps) = false ->
        exists data,
          Dict.get (IdStr "c") (AppManager.processes m) = Some data
          /\ AppManager.initialPort Example.twoApps <= AppManager.port data
          /\ (forall Id' data',
                Dict.get Id' (AppManager.processes Example.twoApps) = Some data' ->
                AppManager.port data' <> AppManager.port data)
          /\ (forall q, AppManager.initialPort Example.twoApps <= q < AppManager.port data ->
                        exists Id' data',
                          Dict.get Id' (AppManager.processes Example.twoApps) = Some data'
                          /\ AppManager.port data' = q)).
Proof.
  apply (launchApp_always_returns Example.twoApps (IdStr "c")).
  repeat constructor; simpl; intuition discriminate.
Defined.

(** X2.  What a successful [launchApp] wires together: the port given to
    the started process, the port the new socket connects to and the port
    of the new record are the same; the process started, the process
    signalled with [newProcess] and the process of the record are the same;
    the socket connected and registered is the socket of the record.  Both
    objects are new: no record of the table held them. *)
Theorem launchApp_wiring (base : Z) (s : System.state) (Id : IdType)
    (module func : string) (args : list string) :
  reachable base s ->
  Dict.mem Id (AppManager.processes (System.manager s)) = false ->
  exists m data,
    AppManager.launchApp (System.manager s) Id module func args
    = (m, Returns true,
       [ProcessStart (AppManager.process data) (AppManager.port data) module func args;
        ProcessWaitForStarted (AppManager.process data) 100;
        SocketConnect (AppManager.socket data) (AppManager.port data);
        PollerRegister (AppManager.socket data);
        EmitNewProcess Id (AppManager.process data)])
    /\ Dict.get Id (AppManager.processes m) = Some data
    /\ ~ In (process_object (AppManager.process data))
            (objects (AppManager.processes (System.manager s)))
    /\ ~ In (socket_object (AppManager.socket data))
            (objects (AppManager.processes (System.manager s)))
    /\ process_object (AppManager.process data) <> socket_object (AppManager.socket data).
Proof.
  intros R M. apply reachable_objectsOk in R. destruct R as [_ B].
  destruct (launchApp_new (System.manager s) Id module func args M) as (p & _ & ->).
  eexists _, (AppManager.Worker _ p _). split; [reflexivity|]. simpl.
  split; [apply get_app_new; now apply mem_false_keys|].
  repeat split.
  - intro C. apply B in C. lia.
  - intro C. apply B in C. lia.
  - lia.
Qed.

Lemma launchApp_wiring_witness :
  exists m data,
    AppManager.launchApp (System.manager (Example.stateAfter Example.oneStopped))
      (IdStr "c") "plottr.apps.autoplot" "autoplotDDH5" []
    = (m, Returns true,
       [ProcessStart (AppManager.process data) (AppManager.port data)
          "plottr.apps.autoplot" "autoplotDDH5" [];
        ProcessWaitForStarted (AppManager.process data) 100;
        SocketConnect (AppManager.socket data) (AppManager.port data);
        PollerRegister (AppManager.socket data);
        EmitNewProcess (IdStr "c") (AppManager.process data)])
    /\ Dict.get (IdStr "c") (AppManager.processes m) = Some data
    /\ ~ In (process_object (AppManager.process data))
            (objects (AppManager.processes
                        (System.manager (Example.stateAfter Example.oneStopped))))
    /\ ~ In (socket_object (AppManager.socket data))
            (objects (AppManager.processes
                        (System.manager (Example.stateAfter Example.oneStopped))))
    /\ process_object (AppManager.process data) <> socket_object (AppManager.socket data).
Proof.
  apply (launchApp_wiring 12345 (Example.stateAfter Example.oneStopped) (IdStr "c")).
  - exists Example.oneStopped. reflexivity.
  - reflexivity.
Defined.

(** ** Launching on a new manager *)

Lemma consecutive_S (base : Z) (n : nat) :
  consecutive base (S n) = consecutive base n ++ [base + Z.of_nat n].
Proof. unfold consecutive. now rewrite seq_S, map_app. Qed.

Lemma consecutive_In (base : Z) (n : nat) (q : Z) :
  In q (consecutive base n) <-> base <= q < base + Z.of_nat n.
Proof.
  unfold consecutive. rewrite in_map_iff. split.
  - intros (i & <- & I). apply in_seq in I. lia.
  - intro B. exists (Z.to_nat (q - base)). split; [lia|]. apply in_seq. lia.
Qed.

Lemma lowestFree_consecutive (base : Z) (n : nat) :
  lowestFree base (consecutive base n) (base + Z.of_nat n).
Proof.
  repeat split.
  - lia.
  - rewrite consecutive_In. lia.
  - intros q Q. apply consecutive_In. lia.
Qed.

Lemma launchAll_consecutive (ids : list IdType) (m : AppManager.state)
    (module func : string) (args : list string) :
  NoDup (Dict.keys (AppManager.processes m) ++ ids) ->
  AppManager.usedPorts m
  = consecutive (AppManager.initialPort m) (List.length (AppManager.processes m)) ->
  Dict.keys (AppManager.processes (launchAll m ids module func args))
  = Dict.keys (AppManager.processes m) ++ ids
  /\ AppManager.usedPorts (launchAll m ids module func args)
     = consecutive (AppManager.initialPort m)
         (List.length (AppManager.processes m) + List.length ids).
Proof.
  revert m. induction ids as [|Id ids IH]; intros m ND U; simpl.
  - now rewrite app_nil_r, Nat.add_0_r.
  - assert (M : Dict.mem Id (AppManager.processes m) = false).
    { apply mem_false_keys. intro C. apply (NoDup_app_disjoint _ _ ND Id C). now left. }
    destruct (launchApp_new m Id module func args M) as (p & L & E).
    unfold launchAll in *. simpl. rewrite E. simpl.
    rewrite U in L.
    pose proof (lowestFree_unique _ _ _ _ L (lowestFree_consecutive _ _)) as ->.
    match goal with
    | |- context [fold_left _ ids ?m1] => destruct (IH m1) as [K P]
    end.
    + simpl. rewrite keys_app. simpl. rewrite <- app_assoc. exact ND.
    + simpl. rewrite usedPorts_app; [|exact m].
      fold (AppManager.usedPorts m). rewrite U, length_app. simpl.
      rewrite Nat.add_1_r. now rewrite consecutive_S.
    + simpl in K, P. rewrite K, P. rewrite keys_app, length_app. simpl.
      rewrite <- app_assoc. split; [reflexivity|]. f_equal. lia.
Qed.

(** X3.  On a new manager, launching apps under pairwise different ids
    gives them the ports [initialPort], [initialPort + 1], ... in the order
    of the launches, and the table lists the ids in that order. *)
Theorem fresh_launches_take_consecutive_ports (base : Z) (ids : list IdType)
    (module func : string) (args : list string) :
  NoDup ids ->
  Dict.keys (AppManager.processes (launchAll (AppManager.init base) ids module func args))
  = ids
  /\ AppManager.usedPorts (launchAll (AppManager.init base) ids module func args)
     = consecutive base (List.length ids).
Proof.
  intro ND.
  apply (launchAll_consecutive ids (AppManager.init base) module func args);
    [exact ND | reflexivity].
Qed.

Lemma fresh_launches_take_consecutive_ports_witness :
  NoDup [IdInt 1; IdStr "b"; IdInt 3]
  /\ Dict.keys (AppManager.processes
                  (launchAll (AppManager.init 12345) [IdInt 1; IdStr "b"; IdInt 3]
                     "plottr.apps.autoplot" "autoplotDDH5" []))
     = [IdInt 1; IdStr "b"; IdInt 3]
  /\ AppManager.usedPorts
       (launchAll (AppManager.init 12345) [IdInt 1; IdStr "b"; IdInt 3]
          "plottr.apps.autoplot" "autoplotDDH5" [])
     = consecutive 12345 3.
Proof.
  assert (ND : NoDup [IdInt 1; IdStr "b"; IdInt 3]).
  { repeat constructor; simpl; intuition discriminate. }
  split; [exact ND|].
  apply (fresh_launches_take_consecutive_ports 12345 [IdInt 1; IdStr "b"; IdInt 3]
           "plottr.apps.autoplot" "autoplotDDH5" []).
  exact ND.
Defined.

(** ** The termination handler on any manager *)

Lemma filter_other_keys (k : IdType) (l : list IdType) :
  ~ In k l -> filter (fun x => negb (Id_eqb x k)) l = l.
Proof.
  induction l as [|x l IH]; simpl; intro N; [reflexivity|].
  destruct (Id_eqb x k) eqn:E.
  - apply Id_eqb_eq in E. subst. tauto.
  - simpl. f_equal. apply IH. tauto.
Qed.

(** X4.  [onProcessEneded] raises [KeyError] exactly on an id that is not
    in the table, and then leaves the manager as it was.  On an id of the
    table it takes out the record of that id and nothing else: the other
    ids keep their records and their order, and the id is no longer
    known. *)
Theorem onProcessEneded_spec (m : AppManager.state) (Id : IdType) :
  NoDup (Dict.keys (AppManager.processes m)) ->
  (Dict.mem Id (AppManager.processes m) = false ->
   AppManager.onProcessEneded m Id = (m, Raises (Exc KeyError (str_of_Id Id))))
  /\ (Dict.mem Id (AppManager.processes m) = true ->
      exists d,
        AppManager.onProcessEneded m Id = (AppManager.with_processes m d, Returns tt)
        /\ Dict.mem Id d = false
        /\ (forall Id', Id' <> Id -> Dict.get Id' d = Dict.get Id' (AppManager.processes m))
        /\ Dict.keys d
           = filter (fun k => negb (Id_eqb k Id)) (Dict.keys (AppManager.processes m))).
Proof.
  intro ND. unfold AppManager.onProcessEneded. split; intro M.
  - apply mem_false_keys, del_None_keys in M. now rewrite M.
  - apply mem_keys in M. destruct (del_present _ _ M) as [d D]. rewrite D.
    exists d. split; [reflexivity|].
    destruct (del_Some_split _ _ _ D) as (v & d1 & d2 & E & -> & N1).
    rewrite E in ND. rewrite keys_app in ND. simpl in ND.
    pose proof (NoDup_remove_2 _ _ _ ND) as N.
    split; [|split].
    + apply mem_false_keys. now rewrite keys_app.
    + intros Id' NE. now apply (get_del_other _ _ _ _ D).
    + rewrite E, !keys_app. simpl. rewrite filter_app. simpl.
      rewrite Id_eqb_refl. simpl.
      rewrite !filter_other_keys; [reflexivity | |];
        intro C; apply N; apply in_or_app; tauto.
Qed.

Lemma onProcessEneded_spec_witness :
  NoDup (Dict.keys (AppManager.processes Example.twoApps))
  /\ AppManager.onProcessEneded Example.twoApps (IdInt 7)
     = (Example.twoApps, Raises (Exc KeyError "7"))
  /\ exists d,
       AppManager.onProcessEneded Example.twoApps (IdInt 1)
       = (AppManager.with_processes Example.twoApps d, Returns tt)
       /\ Dict.mem (IdInt 1) d = false
       /\ (forall Id', Id' <> IdInt 1 ->
                       Dict.get Id' d = Dict.get Id' (AppManager.processes Example.twoApps))
       /\ Dict.keys d
          = filter (fun k => negb (Id_eqb k (IdInt 1)))
              (Dict.keys (AppManager.processes Example.twoApps)).
Proof.
  assert (ND : NoDup (Dict.keys (AppManager.processes Example.twoApps))).
  { repeat constructor; simpl; intuition discriminate. }
  split; [exact ND|]. split.
  - apply (proj1 (onProcessEneded_spec Example.twoApps (IdInt 7) ND)). reflexivity.
  - apply (proj2 (onProcessEneded_spec Example.twoApps (IdInt 1) ND)). reflexivity.
Defined.

(** ** The monitor on its own *)

Lemma del_after (pre : Dict.t QProcess) (k : IdType) (v : QProcess) (d : Dict.t QProcess) :
  ~ In k (Dict.keys pre) -> Dict.del k (pre ++ (k, v) :: d) = Some (pre ++ d).
Proof.
  induction pre as [|[k' v'] pre IH]; simpl; intro N.
  - now rewrite Id_eqb_refl.
  - destruct (Id_eqb k k') eqn:E.
    + apply Id_eqb_eq in E. subst. tauto.
    + rewrite IH; tauto.
Qed.

(** The scan, told apart by what is in front of the snapshot's entries in
    the dictionary. *)
Lemma scan_filter (st : ProcessState) (copy pre : Dict.t QProcess) :
  NoDup (Dict.keys (pre ++ copy)) ->
  ProcessMonitor.scan st copy (pre ++ copy)
  = (pre ++ filter (fun '(_, p) => negb (st p =? 0)) copy,
     Dict.keys (filter (fun '(_, p) => st p =? 0) copy),
     Returns tt).
Proof.
  revert pre. induction copy as [|[Id p] rest IH]; intros pre ND; simpl.
  - reflexivity.
  - rewrite keys_app in ND. simpl in ND.
    destruct (st p =? 0) eqn:S; simpl.
    + rewrite del_after.
      * rewrite IH; [reflexivity|].
        rewrite keys_app. eapply NoDup_remove_1; exact ND.
      * intro C. apply (NoDup_remove_2 _ _ _ ND). apply in_or_app. now left.
    + change (pre ++ (Id, p) :: rest) with (pre ++ [(Id, p)] ++ rest).
      rewrite app_assoc. rewrite IH.
      * now rewrite <- app_assoc.
      * rewrite !keys_app. simpl. now rewrite <- app_assoc.
Qed.

(** X5.  A cycle of a monitor that is checking emits, in the order of
    registration, exactly the ids whose process is in state 0, and keeps
    exactly the others, in their order: no running process is dropped and
    no stopped one is kept. *)
Theorem cycle_splits_by_state (st : ProcessState) (self : ProcessMonitor.state) :
  NoDup (Dict.keys (ProcessMonitor.processes self)) ->
  ProcessMonitor.checking self = true ->
  ProcessMonitor.cycle st self
  = (ProcessMonitor.Monitor
       (filter (fun '(_, p) => negb (st p =? 0)) (ProcessMonitor.processes self)) true,
     Dict.keys (filter (fun '(_, p) => st p =? 0) (ProcessMonitor.processes self)),
     Returns tt).
Proof.
  intros ND C. unfold ProcessMonitor.cycle. rewrite C.
  pose proof (scan_filter st (ProcessMonitor.processes self) [] ND) as E.
  simpl in E. now rewrite E.
Qed.

Lemma cycle_splits_by_state_witness :
  NoDup (Dict.keys (ProcessMonitor.processes
                      (System.monitor (Example.stateAfter Example.launchTwo))))
  /\ ProcessMonitor.checking (System.monitor (Example.stateAfter Example.launchTwo)) = true
  /\ ProcessMonitor.cycle (Example.stopped 2)
       (System.monitor (Example.stateAfter Example.launchTwo))
     = (ProcessMonitor.Monitor [(IdInt 1, Process 0)] true, [IdStr "b"], Returns tt).
Proof.
  assert (ND : NoDup (Dict.keys (ProcessMonitor.processes
                                   (System.monitor (Example.stateAfter Example.launchTwo))))).
  { repeat constructor; simpl; intuition discriminate. }
  split; [exact ND|]. split; [reflexivity|].
  apply (cycle_splits_by_state (Example.stopped 2)
           (System.monitor (Example.stateAfter Example.launchTwo)) ND).
  reflexivity.
Defined.

(** X6.  However many cycles the monitor runs between two registrations,
    and whatever the processes do meanwhile, [run] never meets a missing
    key and emits no id twice; the ids emitted and the ids still tracked
    are, together, the ids that were tracked at the start. *)
Theorem monitor_reports_each_id_once (sts : list ProcessState) (self : ProcessMonitor.state) :
  NoDup (Dict.keys (ProcessMonitor.processes self)) ->
  exists self' emitted,
    ProcessMonitor.run sts self = (self', emitted, Returns tt)
    /\ NoDup emitted
    /\ (forall Id, In Id emitted ->
                   Dict.mem Id (ProcessMonitor.processes self) = true
                   /\ Dict.mem Id (ProcessMonitor.processes self') = false)
    /\ Permutation (Dict.keys (ProcessMonitor.processes self))
         (emitted ++ Dict.keys (ProcessMonitor.processes self')).
Proof.
  intro ND. destruct (run_reports_once sts self ND) as (self' & emitted & E & P & N).
  exists self', emitted. split; [assumption|].
  split; [now apply NoDup_app_remove_r in N|].
  split; [|assumption].
  intros Id I. split.
  - apply mem_keys. eapply Permutation_in; [symmetry; exact P|].
    apply in_or_app. now left.
  - apply mem_false_keys. exact (NoDup_app_disjoint _ _ N Id I).
Qed.

Lemma monitor_reports_each_id_once_witness :
  exists self' emitted,
    ProcessMonitor.run [Example.stopped 0; Example.stopped 0; Example.stopped 2]
      (System.monitor (Example.stateAfter Example.launchTwo))
    = (self', emitted, Returns tt)
    /\ NoDup emitted
    /\ (forall Id, In Id emitted ->
                   Dict.mem Id (ProcessMonitor.processes
                                  (System.monitor (Example.stateAfter Example.launchTwo)))
                   = true
                   /\ Dict.mem Id (ProcessMonitor.processes self') = false)
    /\ Permutation
         (Dict.keys (ProcessMonitor.processes
                       (System.monitor (Example.stateAfter Example.launchTwo))))
         (emitted ++ Dict.keys (ProcessMonitor.processes self')).
Proof.
  apply (monitor_reports_each_id_once
           [Example.stopped 0; Example.stopped 0; Example.stopped 2]
           (System.monitor (Example.stateAfter Example.launchTwo))).
  repeat constructor; simpl; intuition discriminate.
Defined.

(** ** The table and the monitor together *)

Lemma get_app_old {V : Type} (k : IdType) (d l : Dict.t V) :
  In k (Dict.keys d) -> Dict.get k (d ++ l) = Dict.get k d.
Proof.
  induction d as [|[k' v'] d IH]; simpl; intro I; [contradiction|].
  destruct (Id_eqb k k') eqn:E; [reflexivity|].
  apply Id_eqb_neq in E. destruct I as [C|I]; [congruence | now apply IH].
Qed.

Lemma In_keys {V : Type} (k : IdType) (v : V) (d : Dict.t V) :
  In (k, v) d -> In k (Dict.keys d).
Proof. intro I. change k with (fst (k, v)). now apply in_map. Qed.

Lemma watched_init (base : Z) : agree (System.init base) /\ covered (System.init base).
Proof.
  split.
  - intros Id p [[]|[]].
  - intros Id [].
Qed.

Lemma watched_step (base : Z) (s s' : System.state) (e : System.event) :
  invariant base s -> agree s /\ covered s -> System.step s e = Returns s' ->
  agree s' /\ covered s'.
Proof.
  intros I [A C] E. pose proof I as [Ib Ik Ip Ig In_ Ikn Ih Ic].
  destruct s as [m mon nq tq reg ntf]. unfold agree, covered, pending in *.
  simpl in *. destruct e; simpl in E.
  - (* launchApp *)
    destruct (Dict.mem Id (AppManager.processes m)) eqn:M.
    + rewrite (launchApp_known _ _ _ _ _ M) in E. simpl in E. rewrite app_nil_r in E.
      injection E as <-. simpl. now split.
    + destruct (launchApp_new m Id module func args M) as (p & _ & L).
      rewrite L in E. simpl in E. injection E as <-. simpl.
      apply mem_false_keys in M. split.
      * intros Id' p' J. rewrite in_app_iff in J. simpl in J.
        destruct J as [J|[J|[J|[]]]].
        -- destruct (A Id' p' (or_introl J)) as (data & G & P).
           exists data. split; [|assumption].
           rewrite get_app_old; [assumption | eapply get_Some_keys; eassumption].
        -- destruct (A Id' p' (or_intror J)) as (data & G & P).
           exists data. split; [|assumption].
           rewrite get_app_old; [assumption | eapply get_Some_keys; eassumption].
        -- injection J as <- <-. eexists. split; [now apply get_app_new | reflexivity].
      * intros Id'. rewrite keys_app, map_app. simpl. rewrite !in_app_iff. simpl.
        intros [J|[<-|[]]]; [|tauto].
        apply C in J. rewrite !in_app_iff in J. tauto.
  - (* the monitor is handed a process *)
    destruct nq as [|[Id p] nq]; injection E as <-; simpl; [now split|].
    assert (F : ~ In Id (Dict.keys (ProcessMonitor.processes mon))).
    { intro J. apply NoDup_remove_2 in In_. apply In_. apply in_or_app. now left. }
    rewrite (set_new _ _ _ F). split.
    + intros Id' p' J. rewrite in_app_iff in J. simpl in J.
      destruct J as [[J|[J|[]]]|J].
      * apply A. now left.
      * injection J as <- <-. apply A. right. now left.
      * apply A. right. now right.
    + intros Id' J. apply C in J. rewrite keys_app. simpl.
      rewrite !in_app_iff in *. simpl in *. tauto.
  - (* a cycle of the monitor *)
    unfold ProcessMonitor.cycle in E. rewrite Ic in E.
    pose proof (scan_filter st (ProcessMonitor.processes mon) []
                  (NoDup_app_l _ _ In_)) as S.
    simpl in S. rewrite S in E. injection E as <-. simpl. split.
    + intros Id p [J|J]; apply A; [left | now right].
      apply filter_In in J. tauto.
    + intros Id J. apply C in J. rewrite !in_app_iff in *.
      destruct J as [J|[J|J]]; [|tauto|tauto].
      unfold Dict.keys in J. apply in_map_iff in J. destruct J as ([k p] & <- & J).
      simpl. destruct (st p =? 0) eqn:Z.
      * right. right. right. apply (In_keys k p). apply filter_In. now split.
      * left. apply (In_keys k p). apply filter_In. split; [assumption | now rewrite Z].
  - (* the manager handles a termination *)
    destruct tq as [|Id0 tq]; [injection E as <-; now split|].
    destruct (manager_event_spec base _ Id0 tq I eq_refl) as (d & data0 & Es & D & G & Pk & _).
    simpl in Es, D, G, Pk. unfold System.step in Es. rewrite Es in E.
    injection E as <-. simpl.
    pose proof (Permutation_NoDup Pk Ik) as Nk. inversion Nk as [|? ? Fk _]; subst.
    assert (Other : forall Id, In Id (Dict.keys (ProcessMonitor.processes mon)
                                      ++ map fst nq) -> Id <> Id0).
    { intros Id J ->. rewrite app_assoc in In_. apply NoDup_remove_2 in In_.
      apply In_. apply in_or_app. now left. }
    split.
    + intros Id p J.
      destruct (A Id p J) as (data & Gd & P). exists data. split; [|assumption].
      rewrite (get_del_other _ _ _ _ D); [assumption|].
      apply Other. rewrite in_app_iff.
      destruct J as [J|J]; [left | right]; now apply (In_keys Id p).
    + intros Id J.
      assert (J' : In Id (Dict.keys (AppManager.processes m))).
      { eapply Permutation_in; [symmetry; exact Pk | now right]. }
      apply C in J'. rewrite !in_app_iff in *. simpl in J'.
      destruct J' as [J'|[J'|[<-|J']]]; tauto.
Qed.

Lemma reachable_watched (base : Z) (s : System.state) :
  reachable base s -> agree s /\ covered s.
Proof.
  intros [es E]. revert E.
  generalize (watched_init base) (invariant_init base).
  generalize (System.init base). induction es as [|e es IH]; simpl; intros s0 W I E.
  - now injection E as <-.
  - destruct (invariant_step base s0 e I) as (s1 & E1 & I1). rewrite E1 in E.
    apply (IH s1); [exact (watched_step base s0 s1 e I W E1) | assumption | assumption].
Qed.

(** X8.  In every reachable state the monitor watches the very process the
    table records: an id the monitor tracks is a key of the table, and the
    process tracked is the process of the id's record. *)
Theorem monitor_tracks_recorded_process (base : Z) (s : System.state) (Id : IdType)
    (p : QProcess) :
  reachable base s ->
  Dict.get Id (ProcessMonitor.processes (System.monitor s)) = Some p ->
  exists data,
    Dict.get Id (AppManager.processes (System.manager s)) = Some data
    /\ AppManager.process data = p.
Proof.
  intros R G. destruct (reachable_watched base s R) as [A _].
  apply A. left. now apply get_Some_In.
Qed.

Lemma monitor_tracks_recorded_process_witness :
  exists data,
    Dict.get (IdStr "b")
      (AppManager.processes (System.manager (Example.stateAfter Example.oneStopped)))
    = Some data
    /\ AppManager.process data = Process 2.
Proof.
  apply (monitor_tracks_recorded_process 12345 (Example.stateAfter Example.oneStopped)
           (IdStr "b") (Process 2)).
  - exists Example.oneStopped. reflexivity.
  - reflexivity.
Defined.

(** X9.  In every reachable state no app of the table is out of the
    monitor's sight: an id is a key of the table exactly when the monitor
    tracks it, or its [newProcess] signal waits for the monitor, or its
    [processTerminated] signal waits for the manager; and it is in just one
    of the three. *)
Theorem table_ids_are_watched (base : Z) (s : System.state) :
  reachable base s ->
  (forall Id,
     Dict.mem Id (AppManager.processes (System.manager s)) = true <-> In Id (pending s))
  /\ NoDup (pending s).
Proof.
  intro R. destruct (reachable_watched base s R) as [_ C].
  apply reachable_invariant in R. split; [|apply (inv_pending _ _ R)].
  intro Id. rewrite mem_keys. split; [apply C | apply (inv_pending_known _ _ R)].
Qed.

Lemma table_ids_are_watched_witness :
  (forall Id,
     Dict.mem Id (AppManager.processes
                    (System.manager (Example.stateAfter Example.oneStopped))) = true
     <-> In Id (pending (Example.stateAfter Example.oneStopped)))
  /\ NoDup (pending (Example.stateAfter Example.oneStopped)).
Proof.
  apply (table_ids_are_watched 12345 (Example.stateAfter Example.oneStopped)).
  exists Example.oneStopped. reflexivity.
Defined.

(** ** What leaves the dispatcher *)



(** ** The server and the app together *)

Lemma reply_qtsleep_quits (calls : list AppServer.slotCall) (self : AppServer.state) :
  quitsOnly calls = true ->
  AppServer.reply (AppServer.qtsleep self calls) = AppServer.reply self.
Proof.
  revert self. unfold AppServer.qtsleep.
  induction calls as [|[|r] calls IH]; simpl; intros self Q;
    [reflexivity | now rewrite IH | discriminate].
Qed.

Lemma duringSleep_noReply (marks : list Worker.arrival) (underway : option pyval) :
  noReply marks = true ->
  fst (Worker.duringSleep underway marks) = underway
  /\ quitsOnly (snd (Worker.duringSleep underway marks)) = true.
Proof.
  induction marks as [|[|] marks IH]; simpl; intro N; [now split | | discriminate].
  destruct (IH N) as [F Q]. destruct (Worker.duringSleep underway marks). simpl in *.
  now split.
Qed.

Lemma duringSleep_spent (marks : list Worker.arrival) :
  fst (Worker.duringSleep None marks) = None
  /\ quitsOnly (snd (Worker.duringSleep None marks)) = true.
Proof.
  induction marks as [|[|] marks [F Q]]; simpl; [now split | | now split].
  destruct (Worker.duringSleep None marks). simpl in *. now split.
Qed.

(** The sleep during which the reply arrives leaves it in the slot. *)
Lemma duringSleep_hasReply (marks : list Worker.arrival) (r : pyval)
    (self : AppServer.state) :
  hasReply marks = true ->
  fst (Worker.duringSleep (Some r) marks) = None
  /\ AppServer.reply
       (AppServer.qtsleep self (snd (Worker.duringSleep (Some r) marks))) = r.
Proof.
  unfold hasReply. revert self.
  induction marks as [|[|] marks IH]; simpl; intros self N; [discriminate | |].
  - destruct (IH (AppServer.quit self) N) as [F R].
    destruct (Worker.duringSleep (Some r) marks). simpl in *. now split.
  - destruct (duringSleep_spent marks) as [F Q].
    destruct (Worker.duringSleep None marks) as [u calls]. simpl in *.
    split; [assumption|].
    change (AppServer.reply (AppServer.qtsleep (AppServer.loadReply self r) calls) = r).
    now rewrite reply_qtsleep_quits.
Qed.

(** The wait goes through the sleeps without a reply and ends after the
    sleep that brings one. *)
Lemma awaitReply_arrives (before : list (list Worker.arrival)) (marks : list Worker.arrival)
    (after : list (list Worker.arrival)) (r : pyval) (fuel : nat) (self : AppServer.state) :
  is_None r = false ->
  is_None (AppServer.reply self) = true ->
  forallb noReply before = true ->
  hasReply marks = true ->
  (List.length before < fuel)%nat ->
  exists s',
    AppServer.awaitReply fuel self (Worker.arrivals (Some r) (before ++ marks :: after))
    = Some s'
    /\ AppServer.reply s' = r.
Proof.
  intros Nr. revert fuel self.
  induction before as [|b before IH]; simpl; intros fuel self N B M L.
  - destruct fuel as [|fuel]; [lia|]. simpl. rewrite N.
    destruct (duringSleep_hasReply marks r self M) as [_ R].
    destruct (Worker.duringSleep (Some r) marks) as [u calls]. simpl in *.
    exists (AppServer.qtsleep self calls). split; [|assumption].
    destruct fuel; simpl; now rewrite R, Nr.
  - apply andb_prop in B. destruct B as [Bb B].
    destruct fuel as [|fuel]; [lia|]. simpl. rewrite N.
    destruct (duringSleep_noReply b (Some r) Bb) as [F Q].
    destruct (Worker.duringSleep (Some r) b) as [u calls]. simpl in *. subst u.
    apply IH; [|assumption|assumption|lia].
    now rewrite reply_qtsleep_quits.
Qed.

(** The turn of a request whose reply is not [None] and arrives. *)
Lemma serve_sends {FC : Type} `{FlowchartOps FC} (fc : FC)
    (self : AppServer.state) (targetName targetProperty : string) (value r : pyval)
    (before : list (list Worker.arrival)) (marks : list Worker.arrival)
    (after : list (list Worker.arrival)) (fuel : nat) (interrupted : bool)
    (idle : list AppServer.slotCall) :
  snd (App.onMessageReceived fc targetName targetProperty value) = Returns r ->
  is_None r = false ->
  is_None (AppServer.reply self) = true ->
  forallb noReply before = true ->
  hasReply marks = true ->
  (List.length before < fuel)%nat ->
  exists s',
    snd (Worker.serve fuel fc self targetName targetProperty value
           (before ++ marks :: after) interrupted idle)
    = ([AppServer.EmitMessageReceived (AppManager.request targetName targetProperty value);
        AppServer.SendPyobj r], Some s')
    /\ (quitsOnly idle = true -> AppServer.reply s' = PyNone).
Proof.
  intros O Nr N B M L. unfold Worker.serve.
  destruct (App.onMessageReceived fc targetName targetProperty value) as [fc' o].
  simpl in O. subst o. simpl.
  destruct (awaitReply_arrives before marks after r fuel self Nr N B M L) as (s1 & A & R).
  unfold AppServer.turn. simpl. rewrite A, R.
  eexists. split; [reflexivity|].
  intro Q. rewrite reply_qtsleep_quits; [|assumption]. now destruct interrupted.
Qed.

(** The turn of a request for which no reply, or the reply [None], is
    emitted. *)
Lemma serve_waits {FC : Type} `{FlowchartOps FC} (fc : FC)
    (self : AppServer.state) (targetName targetProperty : string) (value : pyval) :
  (Worker.emitted (snd (App.onMessageReceived fc targetName targetProperty value)) = None
   \/ Worker.emitted (snd (App.onMessageReceived fc targetName targetProperty value))
      = Some PyNone) ->
  is_None (AppServer.reply self) = true ->
  forall fuel sched interrupted idle,
    snd (Worker.serve fuel fc self targetName targetProperty value sched interrupted idle)
    = ([AppServer.EmitMessageReceived
          (AppManager.request targetName targetProperty value)], None).
Proof.
  intros O N fuel sched interrupted idle. unfold Worker.serve.
  destruct (App.onMessageReceived fc targetName targetProperty value) as [fc' o].
  simpl in *. unfold AppServer.turn. simpl.
  rewrite awaitReply_None; [reflexivity | assumption | now apply arrivals_None].
Qed.

(** X11.  A request whose reply is not [None] is answered with that reply,
    once: when the server's slot was empty and the reply arrives during one
    of its sleeps, the turn emits [messageReceived], sends the reply the
    dispatcher emitted and nothing else, and ends; unless a new reply is
    loaded during the closing sleep, the slot is empty again afterwards. *)
Theorem reply_is_sent_and_cleared {FC : Type} `{FlowchartOps FC} (fc : FC)
    (self : AppServer.state) (targetName targetProperty : string) (value r : pyval)
    (before : list (list Worker.arrival)) (marks : list Worker.arrival)
    (after : list (list Worker.arrival)) (fuel : nat) (interrupted : bool)
    (idle : list AppServer.slotCall) :
  snd (App.onMessageReceived fc targetName targetProperty value) = Returns r ->
  is_None r = false ->
  is_None (AppServer.reply self) = true ->
  forallb noReply before = true ->
  hasReply marks = true ->
  (List.length before < fuel)%nat ->
  exists s',
    snd (Worker.serve fuel fc self targetName targetProperty value
           (before ++ marks :: after) interrupted idle)
    = ([AppServer.EmitMessageReceived (AppManager.request targetName targetProperty value);
        AppServer.SendPyobj r], Some s')
    /\ (quitsOnly idle = true -> AppServer.reply s' = PyNone).
Proof. apply serve_sends. Qed.

Lemma reply_is_sent_and_cleared_witness :
  exists s',
    snd (Worker.serve 3 ([] : Example.toy) AppServer.init "fit" "order" (PyInt 2)
           ([[]; [Worker.QuitArrives]] ++ [Worker.ReplyArrives] :: [[]]) false [])
    = ([AppServer.EmitMessageReceived (AppManager.request "fit" "order" (PyInt 2));
        AppServer.SendPyobj (PyBool true)], Some s')
    /\ (quitsOnly [] = true -> AppServer.reply s' = PyNone).
Proof.
  apply (reply_is_sent_and_cleared ([] : Example.toy) AppServer.init "fit" "order"
           (PyInt 2) (PyBool true) [[]; [Worker.QuitArrives]] [Worker.ReplyArrives] [[]]
           3 false []); try reflexivity.
  simpl. lia.
Defined.

(** X12.  When an exception leaves [onMessageReceived], no reply is
    emitted, and the server never answers the request nor leaves its wait:
    however long its turn is followed, and even when [quit] arrives or an
    interruption is requested, it has sent nothing. *)
Theorem escaped_exception_wedges_server {FC : Type} `{FlowchartOps FC} (fc : FC)
    (self : AppServer.state) (targetName targetProperty : string) (value : pyval)
    (e : exception) :
  snd (App.onMessageReceived fc targetName targetProperty value) = Raises e ->
  is_None (AppServer.reply self) = true ->
  forall fuel sched interrupted idle,
    snd (Worker.serve fuel fc self targetName targetProperty value sched interrupted idle)
    = ([AppServer.EmitMessageReceived
          (AppManager.request targetName targetProperty value)], None).
Proof.
  intros O N fuel sched interrupted idle. unfold Worker.serve.
  destruct (App.onMessageReceived fc targetName targetProperty value) as [fc' o].
  simpl in O. subst o. simpl.
  unfold AppServer.turn. simpl.
  rewrite awaitReply_None; [reflexivity | assumption |].
  apply arrivals_None. now left.
Qed.

Lemma escaped_exception_wedges_server_witness :
  snd (Worker.serve 1000 ([] : Example.toy) AppServer.init "" "setInput" PyNone
         [[Worker.ReplyArrives]; [Worker.QuitArrives]] true [AppServer.CallQuit])
  = ([AppServer.EmitMessageReceived (AppManager.request "" "setInput" PyNone)], None).
Proof.
  apply (escaped_exception_wedges_server ([] : Example.toy) AppServer.init "" "setInput"
           PyNone (Exc TypeError "argument after ** must be a mapping"));
    reflexivity.
Defined.

(** ** Stopping the server *)

(** The server runs after a sleep exactly when it ran before and no [quit]
    arrived: no slot sets [running] again. *)
Lemma running_qtsleep (calls : list AppServer.slotCall) (self : AppServer.state) :
  AppServer.running (AppServer.qtsleep self calls)
  = AppServer.running self && negb (quitArrives calls).
Proof.
  revert self. unfold AppServer.qtsleep, quitArrives.
  induction calls as [|[|r] calls IH]; simpl; intro self.
  - now rewrite andb_true_r.
  - rewrite IH. simpl. now rewrite andb_false_r.
  - rewrite IH. reflexivity.
Qed.

Lemma loop_stopped (fuel : nat) (self : AppServer.state) (turns : list AppServer.turnInput) :
  AppServer.running self = false ->
  AppServer.loop fuel self turns = ([AppServer.Close 1], Some self).
Proof. intro R. destruct turns; simpl; now rewrite R. Qed.

(** X13.  Both ways of stopping the server work at the end of the turn in
    which they are seen: when the turn ends and an interruption was
    requested, or [quit] arrived during its closing sleep, the loop is
    left; the socket is closed and the turns that would follow do not take
    place, whatever messages wait. *)
Theorem server_stops_after_turn (fuel : nat) (self s' : AppServer.state)
    (t : AppServer.turnInput) (turns : list AppServer.turnInput)
    (acts : list AppServer.action) :
  AppServer.running self = true ->
  AppServer.turn fuel self (AppServer.evts t) (AppServer.waits t)
    (AppServer.interrupted t) (AppServer.idle t) = (acts, Some s') ->
  AppServer.interrupted t = true \/ quitArrives (AppServer.idle t) = true ->
  AppServer.loop fuel self (t :: turns) = (acts ++ [AppServer.Close 1], Some s')
  /\ AppServer.running s' = false.
Proof.
  intros R T Stop.
  assert (R' : AppServer.running s' = false).
  { unfold AppServer.turn in T.
    assert (F : forall s0,
               AppServer.qtsleep
                 (if AppServer.interrupted t
                  then AppServer.Server (AppServer.reply s0) false else s0)
                 (AppServer.idle t) = s' ->
               AppServer.running s' = false).
    { intros s0 <-. rewrite running_qtsleep.
      destruct Stop as [-> | ->]; [reflexivity | simpl; apply andb_false_r]. }
    destruct (AppServer.evts t) as [message|].
    - destruct (eq_str message "ping").
      + injection T as _ T. now apply (F self).
      + destruct (AppServer.awaitReply fuel self (AppServer.waits t)) as [s1|];
          [|discriminate].
        injection T as _ T. now apply (F (AppServer.Server PyNone (AppServer.running s1))).
    - injection T as _ T. now apply (F self). }
  split; [|assumption].
  simpl. rewrite R, T. now rewrite (loop_stopped fuel s' turns R').
Qed.

Lemma server_stops_after_turn_witness :
  AppServer.loop 0 AppServer.init
    [AppServer.TurnInput (Some (PyStr "ping")) [] true [];
     AppServer.TurnInput (Some (PyStr "ping")) [] false []]
  = ([AppServer.SendPyobj (PyStr "pong")] ++ [AppServer.Close 1],
     Some (AppServer.Server PyNone false))
  /\ AppServer.running (AppServer.Server PyNone false) = false.
Proof.
  apply (server_stops_after_turn 0 AppServer.init (AppServer.Server PyNone false)
           (AppServer.TurnInput (Some (PyStr "ping")) [] true [])
           [AppServer.TurnInput (Some (PyStr "ping")) [] false []]
           [AppServer.SendPyobj (PyStr "pong")]).
  - reflexivity.
  - reflexivity.
  - now left.
Defined.

(** ** The manager and an app, end to end

    The peer of a socket is now an app: what the manager receives is what
    the app's server sent in the turn that took the request. *)

(** X14.  [pingApp] on an id of the table whose app's server takes the ping
    in a turn of its loop returns [True]: the ping is answered whatever the
    state of the server's slot, and without the app's help. *)
Theorem ping_reaches_server (peer : AppManager.Peer) (self : AppManager.state)
    (Id : IdType) (data : AppManager.WorkerRecord) (fuel : nat) (srv : AppServer.state)
    (waits : list (list AppServer.slotCall)) (interrupted : bool)
    (idle : list AppServer.slotCall) :
  Dict.get Id (AppManager.processes self) = Some data ->
  peer (AppManager.socket data) (PyStr "ping")
  = sentObject (fst (AppServer.turn fuel srv (Some (PyStr "ping")) waits interrupted idle)) ->
  AppManager.pingApp peer self Id
  = (Returns true,
     [SocketSend (AppManager.socket data) (PyStr "ping");
      SocketRecv (AppManager.socket data) (PyStr "pong")]).
Proof.
  intros G P. unfold AppManager.pingApp. rewrite G, P. reflexivity.
Qed.

Lemma ping_reaches_server_witness :
  AppManager.pingApp Example.politePeer Example.twoApps (IdStr "b")
  = (Returns true,
     [SocketSend (Sock 3) (PyStr "ping"); SocketRecv (Sock 3) (PyStr "pong")]).
Proof.
  apply (ping_reaches_server Example.politePeer Example.twoApps (IdStr "b")
           (AppManager.Worker (Process 2) 12346 (Sock 3)) 0
           (AppServer.Server (PyBool false) true) [] false []);
    reflexivity.
Defined.

(** X15.  [message] to a node the app's flowchart does not have does not
    raise at the manager: once the app's reply has reached its server, the
    call returns a [KeyError] as a value, logs it and prints it; the app's
    flowchart is left as it was. *)
Theorem message_to_missing_node {FC : Type} `{FlowchartOps FC} (fc : FC)
    (peer : AppManager.Peer) (self : AppManager.state) (Id : IdType)
    (data : AppManager.WorkerRecord) (srv : AppServer.state)
    (targetName targetProperty : string) (value : pyval)
    (before : list (list Worker.arrival)) (marks : list Worker.arrival)
    (after : list (list Worker.arrival)) (fuel : nat) (interrupted : bool)
    (idle : list AppServer.slotCall) :
  Dict.get Id (AppManager.processes self) = Some data ->
  App.isFlowchartName targetName = false ->
  hasNode fc targetName = false ->
  is_None (AppServer.reply srv) = true ->
  forallb noReply before = true ->
  hasReply marks = true ->
  (List.length before < fuel)%nat ->
  peer (AppManager.socket data) (AppManager.request targetName targetProperty value)
  = sentObject (fst (snd (Worker.serve fuel fc srv targetName targetProperty value
                            (before ++ marks :: after) interrupted idle))) ->
  AppManager.message peer self Id targetName targetProperty value
  = (Returns (PyException (Exc KeyError targetName)),
     [SocketSend (AppManager.socket data)
        (AppManager.request targetName targetProperty value);
      SocketRecv (AppManager.socket data) (PyException (Exc KeyError targetName));
      LogWarning (ExceptionInApp Id);
      PrintException (Exc KeyError targetName)])
  /\ fst (Worker.serve fuel fc srv targetName targetProperty value
            (before ++ marks :: after) interrupted idle) = fc.
Proof.
  intros G F N E B M L P.
  assert (O : App.onMessageReceived fc targetName targetProperty value
              = (fc, Returns (PyException (Exc KeyError targetName)))).
  { unfold App.onMessageReceived. now rewrite F, N. }
  destruct (serve_sends fc srv targetName targetProperty value
              (PyException (Exc KeyError targetName)) before marks after fuel
              interrupted idle) as (s' & S & _); try assumption;
    [now rewrite O | reflexivity |].
  rewrite S in P. simpl in P.
  split.
  - unfold AppManager.message. rewrite G, P. reflexivity.
  - unfold Worker.serve. now rewrite O.
Qed.

Lemma message_to_missing_node_witness :
  AppManager.message Example.failingPeer Example.twoApps (IdInt 1) "nonode" "order" (PyInt 2)
  = (Returns (PyException (Exc KeyError "nonode")),
     [SocketSend (Sock 1) (AppManager.request "nonode" "order" (PyInt 2));
      SocketRecv (Sock 1) (PyException (Exc KeyError "nonode"));
      LogWarning (ExceptionInApp (IdInt 1));
      PrintException (Exc KeyError "nonode")])
  /\ fst (Worker.serve 2 ([] : Example.toy) AppServer.init "nonode" "order" (PyInt 2)
            ([[]] ++ [Worker.ReplyArrives] :: []) false []) = [].
Proof.
  apply (message_to_missing_node ([] : Example.toy) Example.failingPeer Example.twoApps
           (IdInt 1) (AppManager.Worker (Process 0) 12345 (Sock 1)) AppServer.init
           "nonode" "order" (PyInt 2) [[]] [Worker.ReplyArrives] [] 2 false []);
    try reflexivity.
  simpl. lia.
Defined.

(** X16.  [message] never returns when the app's dispatcher emits [None] as
    the reply, or lets an exception escape: the app's server sends nothing
    back, however long it is followed, so the manager has sent its request
    and stays in the receive. *)
Theorem message_blocks_without_reply {FC : Type} `{FlowchartOps FC} (fc : FC)
    (peer : AppManager.Peer) (self : AppManager.state) (Id : IdType)
    (data : AppManager.WorkerRecord) (srv : AppServer.state)
    (targetName targetProperty : string) (value : pyval)
    (sched : list (list Worker.arrival)) (fuel : nat) (interrupted : bool)
    (idle : list AppServer.slotCall) :
  Dict.get Id (AppManager.processes self) = Some data ->
  (snd (App.onMessageReceived fc targetName targetProperty value) = Returns PyNone
   \/ exists e, snd (App.onMessageReceived fc targetName targetProperty value) = Raises e) ->
  is_None (AppServer.reply srv) = true ->
  peer (AppManager.socket data) (AppManager.request targetName targetProperty value)
  = sentObject (fst (snd (Worker.serve fuel fc srv targetName targetProperty value
                            sched interrupted idle))) ->
  AppManager.message peer self Id targetName targetProperty value
  = (Blocks,
     [SocketSend (AppManager.socket data)
        (AppManager.request targetName targetProperty value)]).
Proof.
  intros G O N P.
  rewrite (serve_waits fc srv targetName targetProperty value) in P;
    [|destruct O as [-> | [e ->]]; [now right | now left] | assumption].
  simpl in P. unfold AppManager.message. now rewrite G, P.
Qed.

Lemma message_blocks_without_reply_witness :
  AppManager.message (fun _ _ => None) Example.twoApps (IdInt 1) "" "setInput"
    (PyDict [(PyStr "dataIn", PyInt 5)])
  = (Blocks,
     [SocketSend (Sock 1)
        (AppManager.request "" "setInput" (PyDict [(PyStr "dataIn", PyInt 5)]))]).
Proof.
  apply (message_blocks_without_reply ([] : Example.toy) (fun _ _ => None) Example.twoApps
           (IdInt 1) (AppManager.Worker (Process 0) 12345 (Sock 1)) AppServer.init
           "" "setInput" (PyDict [(PyStr "dataIn", PyInt 5)])
           [[]; [Worker.ReplyArrives]] 1000 false []).
  - reflexivity.
  - left. reflexivity.
  - reflexivity.
  - reflexivity.
Defined.

(** ** Closing the app *)





(** ** Reusing the id of an app that has stopped *)

(** X18.  The id of an app whose termination the monitor has signalled
    cannot be launched again as long as the manager has not handled the
    signal: [launchApp] returns [False] and changes nothing.  Once the
    manager has handled its queue, [launchApp] with the same id returns
    [True]. *)
Theorem stopped_id_reusable_after_handler (base : Z) (s : System.state) (Id : IdType)
    (module func : string) (args : list string) :
  reachable base s ->
  In Id (System.processTerminated s) ->
  AppManager.launchApp (System.manager s) Id module func args
  = (System.manager s, Returns false, [LogWarning (IdAlreadyExists Id)])
  /\ exists s2 m acts,
       handleAll s = Returns s2
       /\ AppManager.launchApp (System.manager s2) Id module func args
          = (m, Returns true, acts)
       /\ Dict.mem Id (AppManager.processes m) = true.
Proof.
  intros R Q. apply reachable_invariant in R as I.
  assert (K : In Id (Dict.keys (AppManager.processes (System.manager s)))).
  { apply (inv_pending_known _ _ I). unfold pending. rewrite !in_app_iff. tauto. }
  split; [apply launchApp_known; now apply mem_keys|].
  destruct (Dict.get Id (AppManager.processes (System.manager s))) as [data|] eqn:G;
    [|apply get_None_keys in G; contradiction].
  destruct (handleAll_spec base _ s I eq_refl) as (s2 & E & _ & _ & _ & A).
  destruct (A Id data Q G) as [N _]. apply mem_false_keys in N.
  destruct (launchApp_new (System.manager s2) Id module func args N) as (p & _ & L).
  exists s2. eexists _, _. split; [exact E|]. split; [exact L|].
  simpl. apply mem_keys. rewrite keys_app. apply in_or_app. right. now left.
Qed.

Lemma stopped_id_reusable_after_handler_witness :
  AppManager.launchApp
    (System.manager (Example.stateAfter
                       (Example.launchTwo ++ [System.MonitorCycle (Example.stopped 0)])))
    (IdInt 1) "plottr.apps.autoplot" "autoplotDDH5" []
  = (System.manager (Example.stateAfter
                       (Example.launchTwo ++ [System.MonitorCycle (Example.stopped 0)])),
     Returns false, [LogWarning (IdAlreadyExists (IdInt 1))])
  /\ exists s2 m acts,
       handleAll (Example.stateAfter
                    (Example.launchTwo ++ [System.MonitorCycle (Example.stopped 0)]))
       = Returns s2
       /\ AppManager.launchApp (System.manager s2) (IdInt 1)
            "plottr.apps.autoplot" "autoplotDDH5" []
          = (m, Returns true, acts)
       /\ Dict.mem (IdInt 1) (AppManager.processes m) = true.
Proof.
  apply (stopped_id_reusable_after_handler 12345
           (Example.stateAfter
              (Example.launchTwo ++ [System.MonitorCycle (Example.stopped 0)]))
           (IdInt 1)).
  - exists (Example.launchTwo ++ [System.MonitorCycle (Example.stopped 0)]). reflexivity.
  - simpl. now left.
Defined.
